(** * Deadlock visualizer: wait-for graph and FSA rendering

    A shallow embedding of the two versions of [visualization.js] of the
    deadlock-detection web client: the original one
    (web/static/js/visualization.js, module [Light]) and the dark-mode
    revision (module [Dark]).  Both define one class, [DeadlockVisualizer],
    which lays nodes out on a circle and draws them, with arrows between
    them, on an HTML canvas.

    JavaScript numbers are idealised as real numbers extended with [NaN];
    the canvas is modelled by the state of its 2D context together with the
    list of painting operations applied to its bitmap. *)

From Stdlib Require Import Reals Lra ZArith.
From stdpp Require Import gmap strings list.

Open Scope R_scope.

(** ** JavaScript numbers *)

(** A number is a finite real or [NaN].  Infinities are left out: the
    renderer divides only by 2, by 6 and by a list length inside a loop over
    that list, so no path produces one. *)
Inductive number :=
| Fin (r : R)
| NaN.

Definition lift1 (f : R -> R) (a : number) : number :=
  match a with
  | Fin x => Fin (f x)
  | NaN => NaN
  end.

Definition lift2 (f : R -> R -> R) (a b : number) : number :=
  match a, b with
  | Fin x, Fin y => Fin (f x y)
  | _, _ => NaN
  end.

Definition nadd : number -> number -> number := lift2 Rplus.
Definition nsub : number -> number -> number := lift2 Rminus.
Definition nmul : number -> number -> number := lift2 Rmult.

(** [a / n] for a divisor that is a non-negative integer (a literal or an
    array length).  A zero divisor gives a non-finite number in JavaScript
    (an infinity, or NaN for 0/0), never an exception; it is [NaN] here. *)
Definition ndiv (a : number) (n : nat) : number :=
  match n with
  | O => NaN
  | S _ => lift1 (fun x => x / INR n) a
  end.

(** [Math.atan2(y, x)] on the reals. *)
Definition atan2 (y x : R) : R :=
  if Rlt_dec 0 x then atan (y / x)
  else if Rlt_dec x 0 then
         (if Rle_dec 0 y then atan (y / x) + PI else atan (y / x) - PI)
       else if Rlt_dec 0 y then PI / 2
            else if Rlt_dec y 0 then - (PI / 2)
                 else 0.

Module Math.
Definition PI : number := Fin Rtrigo1.PI.
Definition min : number -> number -> number := lift2 Rmin.
Definition cos : number -> number := lift1 Rtrigo_def.cos.
Definition sin : number -> number := lift1 Rtrigo_def.sin.
Definition atan2 : number -> number -> number := lift2 atan2.
End Math.

Declare Scope js_scope.
Delimit Scope js_scope with js.
Infix "+" := nadd : js_scope.
Infix "-" := nsub : js_scope.
Infix "*" := nmul : js_scope.
Infix "/" := ndiv : js_scope.

(** Array indices and lengths as numbers. *)
Definition of_nat (n : nat) : number := Fin (INR n).

(** ** Errors and completions *)

Inductive Error :=
| TypeError        (* a property read on null or undefined *)
| IndexSizeError.  (* DOMException of [arc] with a negative radius *)

Inductive Completion :=
| Normal
| Throw (e : Error).

(** ** The canvas 2D context *)

Inductive PathCmd :=
| MoveTo (x y : R)
| LineTo (x y : R)
| Arc (x y radius startAngle endAngle : R)
| ClosePath.

(** The shadow a painting operation is drawn with: none when the blur is 0
    (the offsets are never changed from 0), else the blur and its colour. *)
Definition Shadow : Type := option (Z * string).

(** One painting operation on the bitmap, with every piece of context state
    that its result depends on among those the render methods assign (the
    transform is set once, by the dark-mode constructor). *)
Inductive Paint :=
| ClearRect (x y w h : R)
| FillRect (x y w h : R) (fill : string) (sh : Shadow)
| FillPath (p : list PathCmd) (fill : string) (sh : Shadow)
| StrokePath (p : list PathCmd) (stroke : string) (width : Z) (sh : Shadow)
| FillText (text : string) (x y : R) (fill font align baseline : string)
           (sh : Shadow).

Record Context2D := {
  fillStyle : string;
  strokeStyle : string;
  lineWidth : Z;
  shadowBlur : Z;
  shadowColor : string;
  font : string;
  textAlign : string;
  textBaseline : string;
  scaleX : R;                (* the current transform, a pure scaling *)
  scaleY : R;
  path : list PathCmd;       (* the current default path *)
  painted : list Paint       (* the bitmap, as the operations applied to it *)
}.

(** The state of a context that was just created or reset. *)
Definition default_context : Context2D :=
  {| fillStyle := "#000000"; strokeStyle := "#000000"; lineWidth := 1;
     shadowBlur := 0; shadowColor := "rgba(0, 0, 0, 0)";
     font := "10px sans-serif"; textAlign := "start";
     textBaseline := "alphabetic"; scaleX := 1; scaleY := 1;
     path := []; painted := [] |}.

Definition set_fillStyle (v : string) (c : Context2D) : Context2D :=
  {| fillStyle := v; strokeStyle := strokeStyle c; lineWidth := lineWidth c;
     shadowBlur := shadowBlur c; shadowColor := shadowColor c;
     font := font c; textAlign := textAlign c;
     textBaseline := textBaseline c; scaleX := scaleX c; scaleY := scaleY c;
     path := path c; painted := painted c |}.

Definition set_strokeStyle (v : string) (c : Context2D) : Context2D :=
  {| fillStyle := fillStyle c; strokeStyle := v; lineWidth := lineWidth c;
     shadowBlur := shadowBlur c; shadowColor := shadowColor c;
     font := font c; textAlign := textAlign c;
     textBaseline := textBaseline c; scaleX := scaleX c; scaleY := scaleY c;
     path := path c; painted := painted c |}.

Definition set_lineWidth (v : Z) (c : Context2D) : Context2D :=
  {| fillStyle := fillStyle c; strokeStyle := strokeStyle c; lineWidth := v;
     shadowBlur := shadowBlur c; shadowColor := shadowColor c;
     font := font c; textAlign := textAlign c;
     textBaseline := textBaseline c; scaleX := scaleX c; scaleY := scaleY c;
     path := path c; painted := painted c |}.

Definition set_shadowBlur (v : Z) (c : Context2D) : Context2D :=
  {| fillStyle := fillStyle c; strokeStyle := strokeStyle c;
     lineWidth := lineWidth c; shadowBlur := v; shadowColor := shadowColor c;
     font := font c; textAlign := textAlign c;
     textBaseline := textBaseline c; scaleX := scaleX c; scaleY := scaleY c;
     path := path c; painted := painted c |}.

Definition set_shadowColor (v : string) (c : Context2D) : Context2D :=
  {| fillStyle := fillStyle c; strokeStyle := strokeStyle c;
     lineWidth := lineWidth c; shadowBlur := shadowBlur c; shadowColor := v;
     font := font c; textAlign := textAlign c;
     textBaseline := textBaseline c; scaleX := scaleX c; scaleY := scaleY c;
     path := path c; painted := painted c |}.

Definition set_font (v : string) (c : Context2D) : Context2D :=
  {| fillStyle := fillStyle c; strokeStyle := strokeStyle c;
     lineWidth := lineWidth c; shadowBlur := shadowBlur c;
     shadowColor := shadowColor c; font := v; textAlign := textAlign c;
     textBaseline := textBaseline c; scaleX := scaleX c; scaleY := scaleY c;
     path := path c; painted := painted c |}.

Definition set_textAlign (v : string) (c : Context2D) : Context2D :=
  {| fillStyle := fillStyle c; strokeStyle := strokeStyle c;
     lineWidth := lineWidth c; shadowBlur := shadowBlur c;
     shadowColor := shadowColor c; font := font c; textAlign := v;
     textBaseline := textBaseline c; scaleX := scaleX c; scaleY := scaleY c;
     path := path c; painted := painted c |}.

Definition set_textBaseline (v : string) (c : Context2D) : Context2D :=
  {| fillStyle := fillStyle c; strokeStyle := strokeStyle c;
     lineWidth := lineWidth c; shadowBlur := shadowBlur c;
     shadowColor := shadowColor c; font := font c; textAlign := textAlign c;
     textBaseline := v; scaleX := scaleX c; scaleY := scaleY c;
     path := path c; painted := painted c |}.

Definition set_scale (sx sy : R) (c : Context2D) : Context2D :=
  {| fillStyle := fillStyle c; strokeStyle := strokeStyle c;
     lineWidth := lineWidth c; shadowBlur := shadowBlur c;
     shadowColor := shadowColor c; font := font c; textAlign := textAlign c;
     textBaseline := textBaseline c; scaleX := sx; scaleY := sy;
     path := path c; painted := painted c |}.

Definition set_path (p : list PathCmd) (c : Context2D) : Context2D :=
  {| fillStyle := fillStyle c; strokeStyle := strokeStyle c;
     lineWidth := lineWidth c; shadowBlur := shadowBlur c;
     shadowColor := shadowColor c; font := font c; textAlign := textAlign c;
     textBaseline := textBaseline c; scaleX := scaleX c; scaleY := scaleY c;
     path := p; painted := painted c |}.

Definition paint (p : Paint) (c : Context2D) : Context2D :=
  {| fillStyle := fillStyle c; strokeStyle := strokeStyle c;
     lineWidth := lineWidth c; shadowBlur := shadowBlur c;
     shadowColor := shadowColor c; font := font c; textAlign := textAlign c;
     textBaseline := textBaseline c; scaleX := scaleX c; scaleY := scaleY c;
     path := path c; painted := painted c ++ [p] |}.

Definition shadow (c : Context2D) : Shadow :=
  if decide (shadowBlur c = 0%Z) then None
  else Some (shadowBlur c, shadowColor c).

(** A method of the context, or of the visualizer once its context is known:
    it updates the context and completes normally or throws. *)
Definition Draw : Type := Context2D -> Context2D * Completion.

Definition ret : Draw := fun c => (c, Normal).

Definition throw (e : Error) : Draw := fun c => (c, Throw e).

Definition seq (a b : Draw) : Draw :=
  fun c =>
    match a c with
    | (c', Normal) => b c'
    | (c', Throw e) => (c', Throw e)
    end.

Declare Scope draw_scope.
Delimit Scope draw_scope with draw.
Bind Scope draw_scope with Draw.
Notation "a ;; b" := (seq a b)
  (at level 100, b at level 200, right associativity) : draw_scope.
Open Scope draw_scope.

(** A statement that cannot throw. *)
Definition exec (f : Context2D -> Context2D) : Draw := fun c => (f c, Normal).

(** [l.forEach((x, i) => body)], from index [i] on. *)
Fixpoint forEach_from {A} (i : nat) (l : list A) (body : A -> nat -> Draw)
  : Draw :=
  match l with
  | [] => ret
  | x :: l' => (body x i ;; forEach_from (S i) l' body)%draw
  end.

Definition forEach {A} (l : list A) (body : A -> nat -> Draw) : Draw :=
  forEach_from 0 l body.

(** The methods of [CanvasRenderingContext2D] the class calls.  Each one
    returns without effect when a coordinate is not finite. *)
Module ctx.

Definition beginPath : Draw := exec (set_path []).

Definition moveTo (x y : number) : Draw :=
  match x, y with
  | Fin a, Fin b => exec (fun c => set_path (path c ++ [MoveTo a b]) c)
  | _, _ => ret
  end.

Definition lineTo (x y : number) : Draw :=
  match x, y with
  | Fin a, Fin b => exec (fun c => set_path (path c ++ [LineTo a b]) c)
  | _, _ => ret
  end.

Definition closePath : Draw :=
  exec (fun c =>
          match path c with
          | [] => c
          | _ => set_path (path c ++ [ClosePath]) c
          end).

Definition arc (x y : number) (radius startAngle endAngle : R) : Draw :=
  match x, y with
  | Fin a, Fin b =>
      if Rlt_dec radius 0 then throw IndexSizeError
      else exec (fun c =>
                   set_path (path c ++ [Arc a b radius startAngle endAngle]) c)
  | _, _ => ret
  end.

(** Filling or stroking an empty path paints nothing. *)
Definition fill : Draw :=
  exec (fun c =>
          match path c with
          | [] => c
          | p => paint (FillPath p (fillStyle c) (shadow c)) c
          end).

Definition stroke : Draw :=
  exec (fun c =>
          match path c with
          | [] => c
          | p => paint (StrokePath p (strokeStyle c) (lineWidth c) (shadow c)) c
          end).

Definition clearRect (x y w h : number) : Draw :=
  match x, y, w, h with
  | Fin a, Fin b, Fin cw, Fin ch => exec (paint (ClearRect a b cw ch))
  | _, _, _, _ => ret
  end.

Definition fillRect (x y w h : number) : Draw :=
  match x, y, w, h with
  | Fin a, Fin b, Fin cw, Fin ch =>
      exec (fun c => paint (FillRect a b cw ch (fillStyle c) (shadow c)) c)
  | _, _, _, _ => ret
  end.

Definition fillText (text : string) (x y : number) : Draw :=
  match x, y with
  | Fin a, Fin b =>
      exec (fun c =>
              paint (FillText text a b (fillStyle c) (font c) (textAlign c)
                              (textBaseline c) (shadow c)) c)
  | _, _ => ret
  end.

Definition scale (sx sy : number) : Draw :=
  match sx, sy with
  | Fin a, Fin b => exec (fun c => set_scale (scaleX c * a) (scaleY c * b) c)
  | _, _ => ret
  end.

End ctx.

(** ** JavaScript values of the renderer *)

Coercion Fin : R >-> number.

(** The object literal [{x: ..., y: ...}]. *)
Module Pos.
Record t := { x : number; y : number }.
End Pos.

(** What reading a property of [nodePositions] can give. *)
Inductive JsVal :=
| VUndefined
| VPoint (p : Pos.t)
| VNumber (n : number)
| VObject.           (* an object or function without fields [x] and [y] *)

Definition truthy (v : JsVal) : bool :=
  match v with
  | VUndefined => false
  | VPoint _ => true
  | VNumber (Fin r) => if Req_dec_T r 0 then false else true
  | VNumber NaN => false
  | VObject => true
  end.

(** [v.x] and [v.y] for a [v] that is neither null nor undefined; a field
    that is absent reads as undefined, which is NaN as a number. *)
Definition field_x (v : JsVal) : number :=
  match v with
  | VPoint p => Pos.x p
  | _ => NaN
  end.

Definition field_y (v : JsVal) : number :=
  match v with
  | VPoint p => Pos.y p
  | _ => NaN
  end.

(** The names every plain object inherits from [Object.prototype]. *)
Definition object_prototype_names : list string :=
  [ "constructor"; "__defineGetter__"; "__defineSetter__"; "hasOwnProperty";
    "__lookupGetter__"; "__lookupSetter__"; "isPrototypeOf";
    "propertyIsEnumerable"; "toString"; "valueOf"; "__proto__";
    "toLocaleString" ].

Definition inherited (k : string) : JsVal :=
  if bool_decide (k ∈ object_prototype_names) then VObject else VUndefined.

(** [o[k]] for the object [o = {}] filled by [o[node] = {x, y}].  The
    assignments are kept as a finite map.  A name that was not assigned is
    looked up along the prototype chain.  The assignment [o["__proto__"] = p]
    makes [p] the prototype of [o]; it is kept in the map under that name,
    which is what [o["__proto__"]] reads back, and the fields of [p] are then
    inherited as [o["x"]] and [o["y"]]. *)
Definition get (o : gmap string Pos.t) (k : string) : JsVal :=
  match o !! k with
  | Some p => VPoint p
  | None =>
      match o !! "__proto__" with
      | Some p =>
          if bool_decide (k = "x") then VNumber (Pos.x p)
          else if bool_decide (k = "y") then VNumber (Pos.y p)
          else inherited k
      | None => inherited k
      end
  end.

(** ** Inputs *)

(** An edge of the payload: an object with the names [from] and [to]. *)
Record Edge := { from : string; to : string }.

(** The wait-for graph payload in the shape the render methods read it:
    [nodes] and [deadlockedNodes] are arrays of names and [edges] is an
    array of edge objects; a field that is absent is [None].  Values of another shape (an
    entry of [edges] that is null, a field that is not an array) are not
    snapshots: the statements about a snapshot say nothing of them. *)
Record GraphSnapshot := {
  nodes : option (list string);
  edges : option (list Edge);
  deadlockedNodes : option (list string)
}.

(** The [states] argument: an array of names, or an object, given by its own
    enumerable property names in the order of [Object.keys]. *)
Inductive States :=
| StArray (l : list string)
| StObject (keys : list string).

(** [Array.isArray(states) ? states : Object.keys(states)] *)
Definition stateList (states : States) : list string :=
  match states with
  | StArray l => l
  | StObject keys => keys
  end.

(** ** The canvas element and the visualizer object *)

(** A canvas element: its [width] and [height] attributes and the size of the
    rectangle [getBoundingClientRect()] returns for it, which the page is
    taken not to change between calls. *)
Record Canvas := {
  width : R;
  height : R;
  rect_width : R;
  rect_height : R
}.

(** What [document.getElementById] finds, with the state of the element's 2D
    context; [getContext('2d')] is taken to succeed on every canvas. *)
Record Element := {
  element_canvas : Canvas;
  element_context : Context2D
}.

Definition Document : Type := string -> option Element.

(** The fields [this.canvas] and [this.ctx]; [None] is null or undefined.
    The context is owned by the visualizer from construction on.  The
    original constructor also sets [this.nodes] and [this.edges] to empty
    arrays; no method reads them. *)
Record DeadlockVisualizer := {
  canvas : option Canvas;
  context : option Context2D
}.

(** Runs the body of a method on [this.ctx]. *)
Definition on_context (this : DeadlockVisualizer) (c : Context2D) (d : Draw)
  : DeadlockVisualizer * Completion :=
  let (c', r) := d c in
  ({| canvas := canvas this; context := Some c' |}, r).

(** What is on the visualizer's surface. *)
Definition surface (this : DeadlockVisualizer) : list Paint :=
  match context this with
  | Some c => painted c
  | None => []
  end.

(** ** The circular layout

    The same expressions in both files and in both render methods. *)

(** [(2 * Math.PI * index) / length] *)
Definition angle_of (index length : nat) : number :=
  ndiv (2 * Math.PI * of_nat index)%js length.

(** [{x: centerX + radius * Math.cos(angle),
      y: centerY + radius * Math.sin(angle)}] *)
Definition on_circle (centerX centerY radius angle : number) : Pos.t :=
  {| Pos.x := (centerX + radius * Math.cos angle)%js;
     Pos.y := (centerY + radius * Math.sin angle)%js |}.

(** The loop [nodes.forEach((node, index) => nodePositions[node] = ...)],
    from index [i] on, [n] being [nodes.length]. *)
Fixpoint layout_from (centerX centerY radius : number) (n i : nat)
  (l : list string) (nodePositions : gmap string Pos.t) : gmap string Pos.t :=
  match l with
  | [] => nodePositions
  | node :: l' =>
      layout_from centerX centerY radius n (S i) l'
        (<[node := on_circle centerX centerY radius (angle_of i n)]>
           nodePositions)
  end.

Definition layout (centerX centerY radius : number) (nodes : list string)
  : gmap string Pos.t :=
  layout_from centerX centerY radius (length nodes) 0 nodes ∅.

(** ** The original renderer (web/static/js/visualization.js) *)

Module Light.

Definition margin : R := 50.        (* subtracted from the layout radius *)
Definition nodeRadius : R := 25.    (* [nodeRadius] of [drawArrow] *)
Definition headLength : R := 15.
Definition circleRadius : R := 25.  (* [radius] of [drawNode] *)
Definition background : string := "#f8f9fa".
Definition edgeColor : string := "#dc3545".
Definition nodeColor : string := "#667eea".
Definition activeColor : string := "#28a745".
Definition neutralColor : string := "#6c757d".

Definition constructor (document : Document) (canvasId : string)
  : DeadlockVisualizer :=
  match document canvasId with
  | None => {| canvas := None; context := None |}   (* warns and returns *)
  | Some el =>
      {| canvas := Some (element_canvas el);
         context := Some (element_context el) |}
  end.

Definition clear (this_canvas : option Canvas) : Draw :=
  match this_canvas with
  | None => throw TypeError
  | Some cv =>
      ctx.clearRect 0 0 (width cv) (height cv) ;;
      exec (set_fillStyle background) ;;
      ctx.fillRect 0 0 (width cv) (height cv)
  end.

Definition drawArrow (x1 y1 x2 y2 : number) : Draw :=
  let angle := Math.atan2 (y2 - y1)%js (x2 - x1)%js in
  let x2 := (x2 - nodeRadius * Math.cos angle)%js in
  let y2 := (y2 - nodeRadius * Math.sin angle)%js in
  let x1 := (x1 + nodeRadius * Math.cos angle)%js in
  let y1 := (y1 + nodeRadius * Math.sin angle)%js in
  ctx.beginPath ;;
  ctx.moveTo x1 y1 ;;
  ctx.lineTo x2 y2 ;;
  ctx.stroke ;;
  ctx.beginPath ;;
  ctx.moveTo x2 y2 ;;
  ctx.lineTo
    (x2 - headLength * Math.cos (angle - ndiv Math.PI 6))%js
    (y2 - headLength * Math.sin (angle - ndiv Math.PI 6))%js ;;
  ctx.moveTo x2 y2 ;;
  ctx.lineTo
    (x2 - headLength * Math.cos (angle + ndiv Math.PI 6))%js
    (y2 - headLength * Math.sin (angle + ndiv Math.PI 6))%js ;;
  ctx.stroke.

Definition drawNode (x y : number) (label color : string) : Draw :=
  exec (set_fillStyle color) ;;
  ctx.beginPath ;;
  ctx.arc x y circleRadius 0 (2 * PI) ;;
  ctx.fill ;;
  exec (set_strokeStyle "#333") ;;
  exec (set_lineWidth 2) ;;
  ctx.stroke ;;
  exec (set_fillStyle "#fff") ;;
  exec (set_font "bold 14px Arial") ;;
  exec (set_textAlign "center") ;;
  exec (set_textBaseline "middle") ;;
  ctx.fillText label x y.

(** The body of [drawWaitForGraph] after its guard. *)
Definition drawWaitForGraph_body (this_canvas : option Canvas)
  (wfgData : option GraphSnapshot) : Draw :=
  clear this_canvas ;;
  match wfgData, this_canvas with
  | None, _ => throw TypeError            (* [wfgData.nodes] *)
  | Some _, None => throw TypeError       (* [this.canvas.width] *)
  | Some d, Some cv =>
      let nodes := default [] (nodes d) in
      let edges := default [] (edges d) in
      let centerX := ndiv (width cv) 2 in
      let centerY := ndiv (height cv) 2 in
      let radius := (Math.min centerX centerY - margin)%js in
      let nodePositions := layout centerX centerY radius nodes in
      exec (set_strokeStyle edgeColor) ;;
      exec (set_lineWidth 2) ;;
      forEach edges (fun edge _ =>
        let from := get nodePositions (from edge) in
        let to := get nodePositions (to edge) in
        if truthy from && truthy to
        then drawArrow (field_x from) (field_y from) (field_x to) (field_y to)
        else ret) ;;
      forEach nodes (fun node _ =>
        match get nodePositions node with
        | VUndefined => throw TypeError   (* [pos.x] *)
        | pos => drawNode (field_x pos) (field_y pos) node nodeColor
        end)
  end.

Definition drawWaitForGraph (this : DeadlockVisualizer)
  (wfgData : option GraphSnapshot) : DeadlockVisualizer * Completion :=
  match context this with
  | None => (this, Normal)                (* [if (!this.ctx) return;] *)
  | Some c => on_context this c (drawWaitForGraph_body (canvas this) wfgData)
  end.

(** The body of [drawFSADiagram] once [this.ctx] is known to exist. *)
Definition drawFSADiagram_body (this_canvas : option Canvas)
  (states : option States) (currentState : option string) : Draw :=
  clear this_canvas ;;
  match states, this_canvas with
  | None, _ => throw TypeError            (* [Object.keys(states)] *)
  | Some _, None => throw TypeError       (* [this.canvas.width] *)
  | Some states, Some cv =>
      let stateList := stateList states in
      let centerX := ndiv (width cv) 2 in
      let centerY := ndiv (height cv) 2 in
      let radius := (Math.min centerX centerY - margin)%js in
      forEach stateList (fun state index =>
        let angle := angle_of index (length stateList) in
        let p := on_circle centerX centerY radius angle in
        let color :=
          if bool_decide (Some state = currentState) then activeColor
          else neutralColor in
        drawNode (Pos.x p) (Pos.y p) state color)
  end.

(** There is no guard on [this.ctx] here: [this.clear()] reads
    [this.ctx.clearRect] first. *)
Definition drawFSADiagram (this : DeadlockVisualizer)
  (states : option States) (currentState : option string)
  : DeadlockVisualizer * Completion :=
  match context this with
  | None => (this, Throw TypeError)
  | Some c =>
      on_context this c (drawFSADiagram_body (canvas this) states currentState)
  end.

End Light.

(** ** The dark-mode renderer *)

Module Dark.

Definition margin : R := 60.
Definition nodeRadius : R := 30.    (* [nodeRadius] of [drawArrow] *)
Definition headLength : R := 12.
Definition circleRadius : R := 28.  (* [radius] of [drawNode] *)
Definition background : string := "#0f172a".
Definition lineColor : string := "#94a3b8".
Definition arrowColor : string := "#f87171".
Definition alertColor : string := "#ef4444".
Definition nodeColor : string := "#38bdf8".
Definition activeColor : string := "#10b981".
Definition neutralColor : string := "#475569".

(** [window.devicePixelRatio || 1] *)
Definition or_one (devicePixelRatio : number) : R :=
  match devicePixelRatio with
  | Fin r => if Req_dec_T r 0 then 1 else r
  | NaN => 1
  end.

(** Assigning [canvas.width] and [canvas.height] resets the context to its
    default state and clears the bitmap (the element keeps the integer
    part of the numbers assigned; they are not read again). *)
Definition constructor (document : Document) (devicePixelRatio : number)
  (canvasId : string) : DeadlockVisualizer :=
  match document canvasId with
  | None => {| canvas := None; context := None |}   (* warns and returns *)
  | Some el =>
      let dpr := or_one devicePixelRatio in
      let rect := element_canvas el in
      {| canvas := Some {| width := rect_width rect * dpr;
                           height := rect_height rect * dpr;
                           rect_width := rect_width rect;
                           rect_height := rect_height rect |};
         context := Some (fst (ctx.scale dpr dpr default_context)) |}
  end.

(** Called after the guard of the render methods, so that its own
    [if (!this.ctx) return;] never fires. *)
Definition clearCanvas (this_canvas : option Canvas) : Draw :=
  match this_canvas with
  | None => throw TypeError
  | Some rect =>
      ctx.clearRect 0 0 (rect_width rect) (rect_height rect) ;;
      exec (set_fillStyle background) ;;
      ctx.fillRect 0 0 (rect_width rect) (rect_height rect)
  end.

(** [color || '#94a3b8'] *)
Definition or_lineColor (color : option string) : string :=
  match color with
  | Some s => if bool_decide (s = "") then lineColor else s
  | None => lineColor
  end.

Definition drawArrow (x1 y1 x2 y2 : number) (color : option string) : Draw :=
  let angle := Math.atan2 (y2 - y1)%js (x2 - x1)%js in
  let startX := (x1 + nodeRadius * Math.cos angle)%js in
  let startY := (y1 + nodeRadius * Math.sin angle)%js in
  let endX := (x2 - nodeRadius * Math.cos angle)%js in
  let endY := (y2 - nodeRadius * Math.sin angle)%js in
  exec (set_strokeStyle (or_lineColor color)) ;;
  ctx.beginPath ;;
  ctx.moveTo startX startY ;;
  ctx.lineTo endX endY ;;
  ctx.stroke ;;
  ctx.beginPath ;;
  ctx.moveTo endX endY ;;
  ctx.lineTo
    (endX - headLength * Math.cos (angle - ndiv Math.PI 6))%js
    (endY - headLength * Math.sin (angle - ndiv Math.PI 6))%js ;;
  ctx.lineTo
    (endX - headLength * Math.cos (angle + ndiv Math.PI 6))%js
    (endY - headLength * Math.sin (angle + ndiv Math.PI 6))%js ;;
  ctx.closePath ;;
  exec (set_fillStyle (or_lineColor color)) ;;
  ctx.fill.

(** The font of the labels, [bold 14px "Segoe UI", Arial] with its family
    name in double quotes (character 34). *)
Definition labelFont : string :=
  String.append "bold 14px "
    (String (Ascii.ascii_of_nat 34)
       (String.append "Segoe UI" (String (Ascii.ascii_of_nat 34) ", Arial"))).

Definition drawNode (x y : number) (label color : string) : Draw :=
  exec (set_shadowBlur 15) ;;
  exec (set_shadowColor color) ;;
  exec (set_fillStyle "#1e293b") ;;
  ctx.beginPath ;;
  ctx.arc x y circleRadius 0 (2 * PI) ;;
  ctx.fill ;;
  exec (set_strokeStyle color) ;;
  exec (set_lineWidth 3) ;;
  ctx.stroke ;;
  exec (set_shadowBlur 0) ;;
  exec (set_fillStyle "#f1f5f9") ;;
  exec (set_font labelFont) ;;
  exec (set_textAlign "center") ;;
  exec (set_textBaseline "middle") ;;
  ctx.fillText label x y.

(** [wfgData.deadlockedNodes && wfgData.deadlockedNodes.includes(node)] *)
Definition isDeadlocked (d : GraphSnapshot) (node : string) : bool :=
  match deadlockedNodes d with
  | None => false
  | Some l => bool_decide (node ∈ l)
  end.

(** The body of [drawWaitForGraph] after its guard. *)
Definition drawWaitForGraph_body (this_canvas : option Canvas)
  (d : GraphSnapshot) : Draw :=
  clearCanvas this_canvas ;;
  match this_canvas with
  | None => throw TypeError      (* [this.canvas.getBoundingClientRect] *)
  | Some rect =>
      let nodes := default [] (nodes d) in
      let edges := default [] (edges d) in
      let centerX := ndiv (rect_width rect) 2 in
      let centerY := ndiv (rect_height rect) 2 in
      let radius := (Math.min centerX centerY - margin)%js in
      let nodePositions := layout centerX centerY radius nodes in
      exec (set_strokeStyle lineColor) ;;
      exec (set_lineWidth 2) ;;
      forEach edges (fun edge _ =>
        let start := get nodePositions (from edge) in
        let end_ := get nodePositions (to edge) in
        if truthy start && truthy end_
        then drawArrow (field_x start) (field_y start)
                       (field_x end_) (field_y end_) (Some arrowColor)
        else ret) ;;
      forEach nodes (fun node _ =>
        match get nodePositions node with
        | VUndefined => throw TypeError   (* [pos.x] *)
        | pos =>
            let color := if isDeadlocked d node then alertColor
                         else nodeColor in
            drawNode (field_x pos) (field_y pos) node color
        end)
  end.

Definition drawWaitForGraph (this : DeadlockVisualizer)
  (wfgData : option GraphSnapshot) : DeadlockVisualizer * Completion :=
  match context this, wfgData with
  | Some c, Some d =>
      on_context this c (drawWaitForGraph_body (canvas this) d)
  | _, _ => (this, Normal)       (* [if (!this.ctx || !wfgData) return;] *)
  end.

(** The body of [drawFSADiagram] after its guard. *)
Definition drawFSADiagram_body (this_canvas : option Canvas)
  (states : States) (currentState : option string) : Draw :=
  clearCanvas this_canvas ;;
  match this_canvas with
  | None => throw TypeError
  | Some rect =>
      let stateList := stateList states in
      let centerX := ndiv (rect_width rect) 2 in
      let centerY := ndiv (rect_height rect) 2 in
      let radius := (Math.min centerX centerY - margin)%js in
      forEach stateList (fun state i =>
        let angle := angle_of i (length stateList) in
        let p := on_circle centerX centerY radius angle in
        let color :=
          if bool_decide (Some state = currentState) then activeColor
          else neutralColor in
        drawNode (Pos.x p) (Pos.y p) state color)
  end.

Definition drawFSADiagram (this : DeadlockVisualizer)
  (states : option States) (currentState : option string)
  : DeadlockVisualizer * Completion :=
  match context this, states with
  | Some c, Some s =>
      on_context this c (drawFSADiagram_body (canvas this) s currentState)
  | _, _ => (this, Normal)       (* [if (!this.ctx || !states) return;] *)
  end.

End Dark.

(** ** What a render draws, as a function of its input *)

(** The point of index [i] of [n] on the circle of centre [(cx, cy)] and
    radius [r]. *)
Definition circle_point (cx cy r : R) (i n : nat) : R * R :=
  (cx + r * cos (2 * PI * INR i / INR n),
   cy + r * sin (2 * PI * INR i / INR n)).

Definition point_of (p : R * R) : Pos.t :=
  {| Pos.x := Fin (fst p); Pos.y := Fin (snd p) |}.

(** The last index, counted from [i], at which [id] occurs in [l]: the
    assignment that the layout loop makes last for this name. *)
Fixpoint last_index_from (i : nat) (id : string) (l : list string)
  : option nat :=
  match l with
  | [] => None
  | x :: l' =>
      match last_index_from (S i) id l' with
      | Some j => Some j
      | None => if decide (x = id) then Some i else None
      end
  end.

Definition last_index (id : string) (l : list string) : option nat :=
  last_index_from 0 id l.

(** Where the node named [id] is placed, if it is one of [nodes]. *)
Definition node_point (cx cy r : R) (nodes : list string) (id : string)
  : option (R * R) :=
  (fun j => circle_point cx cy r j (length nodes)) <$> last_index id nodes.

(** The paints of a loop whose body paints [out x i] for the element [x] of
    index [i]. *)
Fixpoint paints_from {A} (out : A -> nat -> list Paint) (i : nat) (l : list A)
  : list Paint :=
  match l with
  | [] => []
  | x :: l' => out x i ++ paints_from out (S i) l'
  end.

(** The calls a client can make on a visualizer. *)
Inductive Call :=
| CallWFG (wfgData : option GraphSnapshot)
| CallFSA (states : option States) (currentState : option string).

Module LightSpec.
Import Light.

Definition backgroundPaints (sh : Shadow) (cv : Canvas) : list Paint :=
  [ ClearRect 0 0 (width cv) (height cv);
    FillRect 0 0 (width cv) (height cv) background sh ].

(** A node: a disc filled with [color], outlined, and its label. *)
Definition nodePaints (sh : Shadow) (label color : string) (p : R * R)
  : list Paint :=
  [ FillPath [Arc (fst p) (snd p) circleRadius 0 (2 * PI)] color sh;
    StrokePath [Arc (fst p) (snd p) circleRadius 0 (2 * PI)] "#333" 2 sh;
    FillText label (fst p) (snd p) "#fff" "bold 14px Arial" "center"
             "middle" sh ].

(** An arrow between the centres [p1] and [p2]: the shortened segment and
    the two strokes of its head. *)
Definition arrowPaints (sh : Shadow) (p1 p2 : R * R) : list Paint :=
  let angle := atan2 (snd p2 - snd p1) (fst p2 - fst p1) in
  let x2 := fst p2 - nodeRadius * cos angle in
  let y2 := snd p2 - nodeRadius * sin angle in
  let x1 := fst p1 + nodeRadius * cos angle in
  let y1 := snd p1 + nodeRadius * sin angle in
  [ StrokePath [MoveTo x1 y1; LineTo x2 y2] edgeColor 2 sh;
    StrokePath
      [ MoveTo x2 y2;
        LineTo (x2 - headLength * cos (angle - PI / 6))
               (y2 - headLength * sin (angle - PI / 6));
        MoveTo x2 y2;
        LineTo (x2 - headLength * cos (angle + PI / 6))
               (y2 - headLength * sin (angle + PI / 6)) ]
      edgeColor 2 sh ].

Definition edgePaints (sh : Shadow) (cx cy r : R) (nodes : list string)
  (e : Edge) : list Paint :=
  match node_point cx cy r nodes (from e), node_point cx cy r nodes (to e) with
  | Some p1, Some p2 => arrowPaints sh p1 p2
  | _, _ => []
  end.

(** The state of the context while the edge loop runs. *)
Definition edge_state (sh : Shadow) (c : Context2D) : Prop :=
  shadow c = sh /\ strokeStyle c = edgeColor /\ lineWidth c = 2%Z.

Definition centerX (cv : Canvas) : R := width cv / 2.
Definition centerY (cv : Canvas) : R := height cv / 2.
Definition radius (cv : Canvas) : R :=
  Rmin (width cv / 2) (height cv / 2) - margin.

Definition wfgPaints (sh : Shadow) (cv : Canvas) (d : GraphSnapshot)
  : list Paint :=
  let nodes := default [] (nodes d) in
  flat_map (edgePaints sh (centerX cv) (centerY cv) (radius cv) nodes)
           (default [] (edges d))
  ++ flat_map
       (fun node =>
          from_option (nodePaints sh node nodeColor) []
            (node_point (centerX cv) (centerY cv) (radius cv) nodes node))
       nodes.

Definition fsaColor (currentState : option string) (state : string)
  : string :=
  if bool_decide (Some state = currentState) then activeColor
  else neutralColor.

Definition fsaPaints (sh : Shadow) (cv : Canvas) (states : States)
  (currentState : option string) : list Paint :=
  paints_from
    (fun state i =>
       nodePaints sh state (fsaColor currentState state)
         (circle_point (centerX cv) (centerY cv) (radius cv) i
            (length (stateList states))))
    0 (stateList states).

(** What a call paints, and how it completes, on a visualizer that has a
    surface. *)
Definition output (sh : Shadow) (cv : Canvas) (call : Call) : list Paint :=
  backgroundPaints sh cv ++
  match call with
  | CallWFG (Some d) => wfgPaints sh cv d
  | CallFSA (Some s) cur => fsaPaints sh cv s cur
  | _ => []
  end.

Definition completion (call : Call) : Completion :=
  match call with
  | CallWFG None | CallFSA None _ => Throw TypeError
  | _ => Normal
  end.

End LightSpec.

Module DarkSpec.
Import Dark.

Definition backgroundPaints (rect : Canvas) : list Paint :=
  [ ClearRect 0 0 (rect_width rect) (rect_height rect);
    FillRect 0 0 (rect_width rect) (rect_height rect) background None ].

(** A node: a dark disc with an outline and a glow of [color], and its
    label. *)
Definition nodePaints (label color : string) (p : R * R) : list Paint :=
  [ FillPath [Arc (fst p) (snd p) circleRadius 0 (2 * PI)] "#1e293b"
             (Some (15%Z, color));
    StrokePath [Arc (fst p) (snd p) circleRadius 0 (2 * PI)] color 3
               (Some (15%Z, color));
    FillText label (fst p) (snd p) "#f1f5f9" labelFont "center" "middle"
             None ].

(** An arrow between the centres [p1] and [p2]: the shortened segment and
    its filled triangular head. *)
Definition arrowPaints (p1 p2 : R * R) : list Paint :=
  let angle := atan2 (snd p2 - snd p1) (fst p2 - fst p1) in
  let startX := fst p1 + nodeRadius * cos angle in
  let startY := snd p1 + nodeRadius * sin angle in
  let endX := fst p2 - nodeRadius * cos angle in
  let endY := snd p2 - nodeRadius * sin angle in
  [ StrokePath [MoveTo startX startY; LineTo endX endY] arrowColor 2 None;
    FillPath
      [ MoveTo endX endY;
        LineTo (endX - headLength * cos (angle - PI / 6))
               (endY - headLength * sin (angle - PI / 6));
        LineTo (endX - headLength * cos (angle + PI / 6))
               (endY - headLength * sin (angle + PI / 6));
        ClosePath ]
      arrowColor None ].

Definition edgePaints (cx cy r : R) (nodes : list string) (e : Edge)
  : list Paint :=
  match node_point cx cy r nodes (from e), node_point cx cy r nodes (to e) with
  | Some p1, Some p2 => arrowPaints p1 p2
  | _, _ => []
  end.

(** The state of the context while the edge loop runs. *)
Definition edge_state (c : Context2D) : Prop :=
  shadowBlur c = 0%Z /\ lineWidth c = 2%Z.

Definition centerX (rect : Canvas) : R := rect_width rect / 2.
Definition centerY (rect : Canvas) : R := rect_height rect / 2.
Definition radius (rect : Canvas) : R :=
  Rmin (rect_width rect / 2) (rect_height rect / 2) - margin.

Definition wfgColor (d : GraphSnapshot) (node : string) : string :=
  if isDeadlocked d node then alertColor else nodeColor.

Definition wfgPaints (rect : Canvas) (d : GraphSnapshot) : list Paint :=
  let nodes := default [] (nodes d) in
  flat_map (edgePaints (centerX rect) (centerY rect) (radius rect) nodes)
           (default [] (edges d))
  ++ flat_map
       (fun node =>
          from_option (nodePaints node (wfgColor d node)) []
            (node_point (centerX rect) (centerY rect) (radius rect) nodes
               node))
       nodes.

Definition fsaColor (currentState : option string) (state : string)
  : string :=
  if bool_decide (Some state = currentState) then activeColor
  else neutralColor.

Definition fsaPaints (rect : Canvas) (states : States)
  (currentState : option string) : list Paint :=
  paints_from
    (fun state i =>
       nodePaints state (fsaColor currentState state)
         (circle_point (centerX rect) (centerY rect) (radius rect) i
            (length (stateList states))))
    0 (stateList states).

(** What a call paints on a visualizer that has a surface; nothing at all
    when its argument is null or undefined. *)
Definition output (rect : Canvas) (call : Call) : list Paint :=
  match call with
  | CallWFG (Some d) => backgroundPaints rect ++ wfgPaints rect d
  | CallFSA (Some s) cur => backgroundPaints rect ++ fsaPaints rect s cur
  | _ => []
  end.

End DarkSpec.

(** ** Sequences of calls *)

Module LightRun.

Definition call (this : DeadlockVisualizer) (c : Call)
  : DeadlockVisualizer * Completion :=
  match c with
  | CallWFG wfgData => Light.drawWaitForGraph this wfgData
  | CallFSA states currentState =>
      Light.drawFSADiagram this states currentState
  end.

(** The visualizer after the calls of [cs], made one after the other; a
    call that throws leaves the object as it was at the throw. *)
Fixpoint run (cs : list Call) (this : DeadlockVisualizer)
  : DeadlockVisualizer :=
  match cs with
  | [] => this
  | c :: cs' => run cs' (fst (call this c))
  end.

End LightRun.

Module DarkRun.

Definition call (this : DeadlockVisualizer) (c : Call)
  : DeadlockVisualizer * Completion :=
  match c with
  | CallWFG wfgData => Dark.drawWaitForGraph this wfgData
  | CallFSA states currentState =>
      Dark.drawFSADiagram this states currentState
  end.

Fixpoint run (cs : list Call) (this : DeadlockVisualizer)
  : DeadlockVisualizer :=
  match cs with
  | [] => this
  | c :: cs' => run cs' (fst (call this c))
  end.

End DarkRun.

(** ** Vocabulary of the statements *)

(** The point at distance [d] from [p] in the direction [a]. *)
Definition polar (p : R * R) (d a : R) : R * R :=
  (fst p + d * cos a, snd p + d * sin a).

(** The square of the distance between two points. *)
Definition dist2 (p q : R * R) : R :=
  (fst q - fst p) * (fst q - fst p) + (snd q - snd p) * (snd q - snd p).

(** A canvas element of the given size whose context is new. *)
Definition new_canvas (w h : R) : Element :=
  {| element_canvas := {| width := w; height := h;
                          rect_width := w; rect_height := h |};
     element_context := default_context |}.

(** The page of the client, with its two canvases of size [w] by [h]. *)
Definition page (w h : R) : Document :=
  fun id =>
    if bool_decide (id = "wfgCanvas") || bool_decide (id = "fsaCanvas")
    then Some (new_canvas w h)
    else None.

(** A page without canvases. *)
Definition empty_page : Document := fun _ => None.

Definition inert : DeadlockVisualizer := {| canvas := None; context := None |}.

(** Where the renders place the node named [id]; the origin stands for a
    name that is not a node, which is never drawn. *)
Definition position (cx cy r : R) (nodes : list string) (id : string)
  : R * R :=
  default (0, 0) (node_point cx cy r nodes id).

(** Both endpoints of the edge are nodes. *)
Definition known (nodes : list string) (e : Edge) : Prop :=
  from e ∈ nodes /\ to e ∈ nodes.

#[global] Instance known_dec (nodes : list string) (e : Edge)
  : Decision (known nodes e).
Proof. unfold known. apply _. Defined.

(** The call returns normally and adds exactly [out] to the surface. *)
Definition renders
  (call : DeadlockVisualizer -> Call -> DeadlockVisualizer * Completion)
  (this : DeadlockVisualizer) (c : Call) (out : list Paint) : Prop :=
  exists this', call this c = (this', Normal)
                /\ surface this' = surface this ++ out.

(** ** The picture on the surface *)

#[global] Instance R_eq_dec : EqDecision R := Req_dec_T.

(** The paint is a [clearRect] of the rectangle that has a corner at the
    origin, the width [w] and the height [h]. *)
Definition full_clear (w h : R) (p : Paint) : bool :=
  match p with
  | ClearRect x y cw ch => bool_decide (x = 0 /\ y = 0 /\ cw = w /\ ch = h)
  | _ => false
  end.

(** What a surface that this rectangle covers shows after [paints]: a
    [clearRect] of the rectangle erases all that was painted before it, so
    the picture is made of the paints that came after the last one. *)
Definition shown (w h : R) (paints : list Paint) : list Paint :=
  fold_left (fun picture p => if full_clear w h p then [] else picture ++ [p])
            paints [].

(** ** The page script

    The part of the client script (the version with the two canvases) that
    owns the visualizers: [initializeApp] creates them and the drawing step
    of [updateSystemState] calls them.  The script works with whichever
    version of the class the page has loaded. *)

Record VisualizerClass := {
  construct : Document -> string -> DeadlockVisualizer;
  method : DeadlockVisualizer -> Call -> DeadlockVisualizer * Completion
}.

Definition LightClass : VisualizerClass :=
  {| construct := Light.constructor; method := LightRun.call |}.

Definition DarkClass (devicePixelRatio : number) : VisualizerClass :=
  {| construct := fun document canvasId =>
                    Dark.constructor document devicePixelRatio canvasId;
     method := DarkRun.call |}.

(** [state.fsa] and the fields of the state payload that the drawing step
    reads; a field that is absent is [None]. *)
Record FsaPayload := {
  states : option States;
  current : option string
}.

Record SystemState := {
  wait_for_graph : option GraphSnapshot;
  fsa : option FsaPayload
}.

(** The variables [wfgVisualizer] and [fsaVisualizer], null until
    [initializeApp] has run. *)
Record App := {
  wfgVisualizer : option DeadlockVisualizer;
  fsaVisualizer : option DeadlockVisualizer
}.

Definition not_initialized : App :=
  {| wfgVisualizer := None; fsaVisualizer := None |}.

(** The elements of the page other than the canvases: whether
    [document.getElementById] finds the id, which the script asks once, for
    its table [elements]; an entry of the table is null when it does not. *)
Definition Elements := string -> bool.

(** The buttons, in the order in which [initializeEventListeners] takes
    them. *)
Definition buttons : list string :=
  [ "createSimBtn"; "runSimBtn"; "resetBtn"; "addProcessBtn";
    "addResourceBtn"; "requestBtn" ].

(** [initializeEventListeners]: [addEventListener] is called on each button,
    which throws a TypeError at the first one that is null. *)
Definition initializeEventListeners (elements : Elements) : Completion :=
  if forallb elements buttons then Normal else Throw TypeError.

(** [logMessage]: the entry is appended to [elements.requestLog]. *)
Definition logMessage (elements : Elements) : Completion :=
  if elements "requestLog" then Normal else Throw TypeError.

(** [initializeApp], given what [checkServerConnection] resolved to: the two
    variables when it settles, and how it completes (a [Throw] is the
    rejection of the promise it returns, which nothing handles).  The
    listeners are added before the visualizers are created, so that a page
    without one of the buttons is left without visualizers. *)
Definition initializeApp (K : VisualizerClass) (document : Document)
  (elements : Elements) (serverReady : bool) (app : App)
  : App * Completion :=
  if serverReady
  then match initializeEventListeners elements with
       | Throw e => (app, Throw e)
       | Normal =>
           ({| wfgVisualizer := Some (construct K document "wfgCanvas");
               fsaVisualizer := Some (construct K document "fsaCanvas") |},
            logMessage elements)
       end
  else (app, Normal).

(** The statements under [// Draw visualizations] of [updateSystemState],
    which end its [try] block, with its [catch]: the result is the two
    variables and the error passed to [console.error], if any. *)
Definition drawVisualizations (K : VisualizerClass) (app : App)
  (state : SystemState) : App * option Error :=
  let after_wfg :=
    match wfgVisualizer app, wait_for_graph state with
    | Some v, Some g =>
        let (v', r) := method K v (CallWFG (Some g)) in
        ({| wfgVisualizer := Some v'; fsaVisualizer := fsaVisualizer app |}, r)
    | _, _ => (app, Normal)
    end in
  match after_wfg with
  | (app1, Throw e) => (app1, Some e)
  | (app1, Normal) =>
      match fsaVisualizer app1, fsa state with
      | Some v, Some f =>
          let (v', r) := method K v (CallFSA (states f) (current f)) in
          ({| wfgVisualizer := wfgVisualizer app1; fsaVisualizer := Some v' |},
           match r with
           | Normal => None
           | Throw e => Some e
           end)
      | _, _ => (app1, None)
      end
  end.

(** The two variables after the drawing steps of a sequence of state
    updates. *)
Definition updates (K : VisualizerClass) (app : App)
  (payloads : list SystemState) : App :=
  fold_left (fun a s => fst (drawVisualizations K a s)) payloads app.

(** ** Vocabulary of the further statements *)

(** The two paints of an arrow of the original renderer: the segment from
    [S] to [E] and the strokes from [E] to the corners [L] and [T]. *)
Definition light_arrow (c : Context2D) (S E L T : R * R) : list Paint :=
  [ StrokePath [ MoveTo (fst S) (snd S); LineTo (fst E) (snd E) ]
               (strokeStyle c) (lineWidth c) (shadow c);
    StrokePath [ MoveTo (fst E) (snd E); LineTo (fst L) (snd L);
                 MoveTo (fst E) (snd E); LineTo (fst T) (snd T) ]
               (strokeStyle c) (lineWidth c) (shadow c) ].

(** The two paints of an arrow of the dark-mode renderer: the segment from
    [S] to [E] and the filled triangle with corners [E], [L] and [T]. *)
Definition dark_arrow (color : option string) (c : Context2D)
  (S E L T : R * R) : list Paint :=
  [ StrokePath [ MoveTo (fst S) (snd S); LineTo (fst E) (snd E) ]
               (Dark.or_lineColor color) (lineWidth c) (shadow c);
    FillPath [ MoveTo (fst E) (snd E); LineTo (fst L) (snd L);
               LineTo (fst T) (snd T); ClosePath ]
             (Dark.or_lineColor color) (shadow c) ].

(** The scaling factors of the visualizer's context, if it has one. *)
Definition transform_of (this : DeadlockVisualizer) : option (R * R) :=
  (fun c => (scaleX c, scaleY c)) <$> context this.

(** [d] leaves the transform of the context as it is, however it completes. *)
Definition keeps_transform (d : Draw) : Prop :=
  forall c, scaleX (fst (d c)) = scaleX c /\ scaleY (fst (d c)) = scaleY c.

(** * Properties *)

Arguments atan2 : simpl never.
Arguments INR : simpl never.
Arguments circle_point : simpl never.
Arguments LightSpec.nodePaints : simpl never.
Arguments LightSpec.backgroundPaints : simpl never.
Arguments DarkSpec.nodePaints : simpl never.
Arguments DarkSpec.backgroundPaints : simpl never.

(** ** Numbers *)

Lemma ndiv_2 (w : R) : ndiv w 2 = Fin (w / 2).
Proof. reflexivity. Qed.

Lemma INR_6 : INR 6 = 6.
Proof. rewrite INR_IZR_INZ. reflexivity. Qed.

Lemma angle_of_fin (i n : nat) :
  (0 < n)%nat -> angle_of i n = Fin (2 * PI * INR i / INR n).
Proof. destruct n; [lia | reflexivity]. Qed.

Lemma on_circle_fin (cx cy r : R) (i n : nat) :
  (0 < n)%nat ->
  on_circle cx cy r (angle_of i n)
  = {| Pos.x := Fin (fst (circle_point cx cy r i n));
       Pos.y := Fin (snd (circle_point cx cy r i n)) |}.
Proof. intros Hn. rewrite (angle_of_fin i n Hn). reflexivity. Qed.

(** ** The layout loop *)

Lemma last_index_from_Some (id : string) (l : list string) :
  forall i j, last_index_from i id l = Some j ->
              (i <= j)%nat /\ l !! (j - i)%nat = Some id.
Proof.
  induction l as [|x l IH]; intros i j H; simpl in H; [discriminate|].
  destruct (last_index_from (S i) id l) as [k|] eqn:E.
  - injection H as ->. destruct (IH _ _ E) as [Hle Hl]. split; [lia|].
    replace (j - i)%nat with (S (j - S i)) by lia. exact Hl.
  - destruct (decide (x = id)) as [->|]; [|discriminate].
    injection H as ->. split; [lia|]. by rewrite Nat.sub_diag.
Qed.

Lemma last_index_from_None (id : string) (l : list string) (i : nat) :
  last_index_from i id l = None <-> id ∉ l.
Proof.
  revert i. induction l as [|x l IH]; intros i; simpl.
  - split; [intros _; apply not_elem_of_nil | done].
  - rewrite not_elem_of_cons.
    destruct (last_index_from (S i) id l) as [k|] eqn:E.
    + split; [discriminate|]. intros [_ Hl].
      apply (proj2 (IH (S i))) in Hl. congruence.
    + apply (proj1 (IH (S i))) in E. destruct (decide (x = id)) as [->|Hne].
      * split; [discriminate | intros [? _]; done].
      * split; [intros _; split; [congruence | done] | done].
Qed.

Lemma last_index_from_NoDup (id : string) (l : list string) :
  NoDup l -> forall i k, l !! k = Some id ->
                         last_index_from i id l = Some (i + k)%nat.
Proof.
  induction 1 as [|x l Hx Hnd IH]; intros i k Hk; [done|].
  simpl. destruct k as [|k]; simpl in Hk.
  - injection Hk as ->.
    rewrite (proj2 (last_index_from_None id l (S i)) Hx).
    rewrite decide_True by done. f_equal. lia.
  - rewrite (IH (S i) k Hk). f_equal. lia.
Qed.

Lemma layout_from_lookup (cx cy r : number) (n : nat) (id : string)
  (l : list string) :
  forall i (acc : gmap string Pos.t),
    layout_from cx cy r n i l acc !! id
    = match last_index_from i id l with
      | Some j => Some (on_circle cx cy r (angle_of j n))
      | None => acc !! id
      end.
Proof.
  induction l as [|x l IH]; intros i acc; simpl; [done|].
  rewrite IH. destruct (last_index_from (S i) id l); [done|].
  destruct (decide (x = id)) as [->|Hne].
  - by rewrite lookup_insert_eq.
  - by rewrite lookup_insert_ne.
Qed.

Lemma layout_lookup (cx cy r : R) (nodes : list string) (id : string) :
  layout cx cy r nodes !! id = point_of <$> node_point cx cy r nodes id.
Proof.
  unfold layout, node_point, last_index. rewrite layout_from_lookup.
  destruct (last_index_from 0 id nodes) as [j|] eqn:E; simpl.
  - f_equal. apply on_circle_fin.
    apply last_index_from_Some in E as [_ E]. apply lookup_lt_Some in E. lia.
  - apply lookup_empty.
Qed.

Lemma node_point_None (cx cy r : R) (nodes : list string) (id : string) :
  node_point cx cy r nodes id = None <-> id ∉ nodes.
Proof.
  unfold node_point, last_index. rewrite fmap_None.
  apply last_index_from_None.
Qed.

Lemma node_point_is_Some (cx cy r : R) (nodes : list string) (id : string) :
  is_Some (node_point cx cy r nodes id) <-> id ∈ nodes.
Proof.
  rewrite <- not_eq_None_Some, node_point_None.
  destruct (decide (id ∈ nodes)); naive_solver.
Qed.

Lemma node_point_NoDup (cx cy r : R) (nodes : list string) (i : nat)
  (id : string) :
  NoDup nodes -> nodes !! i = Some id ->
  node_point cx cy r nodes id = Some (circle_point cx cy r i (length nodes)).
Proof.
  intros Hnd Hi. unfold node_point, last_index.
  by rewrite (last_index_from_NoDup id nodes Hnd 0 i Hi).
Qed.

(** Reading [nodePositions[id]]: the point of a node, and otherwise a value
    whose fields [x] and [y] are not numbers. *)
Lemma get_layout_Some (cx cy r : R) (nodes : list string) (id : string)
  (p : R * R) :
  node_point cx cy r nodes id = Some p ->
  get (layout cx cy r nodes) id = VPoint (point_of p).
Proof.
  intros H. unfold get. by rewrite layout_lookup, H.
Qed.

Lemma get_layout_None (cx cy r : R) (nodes : list string) (id : string) :
  node_point cx cy r nodes id = None ->
  field_x (get (layout cx cy r nodes) id) = NaN
  /\ field_y (get (layout cx cy r nodes) id) = NaN.
Proof.
  intros H. unfold get, inherited. rewrite layout_lookup, H. simpl.
  destruct (layout cx cy r nodes !! "__proto__");
    repeat case_bool_decide; done.
Qed.

(** ** Loops *)

Lemma forEach_from_paints {A} (I : Context2D -> Prop)
  (body : A -> nat -> Draw) (out : A -> nat -> list Paint) (l : list A) :
  (forall x i c, x ∈ l -> I c ->
     exists c', body x i c = (c', Normal) /\ I c'
                /\ painted c' = painted c ++ out x i) ->
  forall i c, I c ->
    exists c', forEach_from i l body c = (c', Normal) /\ I c'
               /\ painted c' = painted c ++ paints_from out i l.
Proof.
  induction l as [|x l IH]; intros Hbody i c Hc; simpl.
  - exists c. by rewrite app_nil_r.
  - destruct (Hbody x i c) as (c1 & E1 & H1 & P1); [left | done |].
    destruct (IH (fun y j d Hy => Hbody y j d (list_elem_of_further _ _ _ Hy))
                 (S i) c1 H1) as (c2 & E2 & H2 & P2).
    exists c2. unfold seq. rewrite E1, E2. split; [done|]. split; [done|].
    by rewrite P2, P1, app_assoc.
Qed.

Lemma paints_from_flat_map {A} (f : A -> list Paint) (l : list A) (i : nat) :
  paints_from (fun x _ => f x) i l = flat_map f l.
Proof.
  revert i. induction l as [|x l IH]; intros i; simpl; [done|].
  by rewrite IH.
Qed.

Lemma paints_from_ext {A} (f g : A -> nat -> list Paint) (l : list A) :
  forall i, (forall k x, l !! k = Some x -> f x (i + k)%nat = g x (i + k)%nat) ->
            paints_from f i l = paints_from g i l.
Proof.
  induction l as [|x l IH]; intros i H; simpl; [done|].
  f_equal.
  - specialize (H 0%nat x eq_refl). by rewrite Nat.add_0_r in H.
  - apply IH. intros k y Hk. specialize (H (S k) y Hk).
    by replace (S i + k)%nat with (i + S k)%nat by lia.
Qed.

Lemma seq_Normal (a b : Draw) (c c' : Context2D) :
  a c = (c', Normal) -> (a ;; b)%draw c = b c'.
Proof. intros H. unfold seq. by rewrite H. Qed.

Lemma seq_exec (f : Context2D -> Context2D) (b : Draw) (c : Context2D) :
  (exec f ;; b)%draw c = b (f c).
Proof. reflexivity. Qed.

Lemma min_sub_fin (a b m : R) :
  (Math.min a b - m)%js = Fin (Rmin a b - m).
Proof. reflexivity. Qed.

(** ** The original renderer *)

Module LightFacts.
Import Light LightSpec.

Lemma light_clear_spec (cv : Canvas) (c : Context2D) :
  exists c', clear (Some cv) c = (c', Normal)
             /\ shadow c' = shadow c
             /\ painted c' = painted c ++ backgroundPaints (shadow c) cv.
Proof.
  eexists. split; [reflexivity|]. split; [reflexivity|].
  simpl. by rewrite <- app_assoc.
Qed.

Lemma light_drawNode_fin (p : R * R) (label color : string) (c : Context2D) :
  exists c', drawNode (fst p) (snd p) label color c = (c', Normal)
             /\ shadow c' = shadow c
             /\ painted c' = painted c ++ nodePaints (shadow c) label color p.
Proof.
  unfold drawNode, ctx.arc.
  destruct (Rlt_dec circleRadius 0) as [H|_];
    [unfold circleRadius in H; lra|].
  eexists. split; [reflexivity|]. split; [reflexivity|].
  simpl. by rewrite <- !app_assoc.
Qed.

Lemma light_drawArrow_fin (sh : Shadow) (p1 p2 : R * R) (c : Context2D) :
  edge_state sh c ->
  exists c', drawArrow (fst p1) (snd p1) (fst p2) (snd p2) c = (c', Normal)
             /\ edge_state sh c'
             /\ painted c' = painted c ++ arrowPaints sh p1 p2.
Proof.
  intros (Hs & Hk & Hw).
  eexists. split; [reflexivity|]. split; [done|].
  simpl. rewrite Hk, Hw. unfold shadow in *. simpl. rewrite Hs, INR_6.
  by rewrite <- app_assoc.
Qed.

Lemma light_drawArrow_nan (sh : Shadow) (x1 y1 x2 y2 : number) (c : Context2D) :
  (x1 = NaN /\ y1 = NaN) \/ (x2 = NaN /\ y2 = NaN) ->
  edge_state sh c ->
  exists c', drawArrow x1 y1 x2 y2 c = (c', Normal)
             /\ edge_state sh c' /\ painted c' = painted c ++ [].
Proof.
  intros Hnan Hc. rewrite app_nil_r.
  destruct Hnan as [[-> ->]|[-> ->]].
  - destruct x2, y2; (eexists; split; [reflexivity|]; done).
  - destruct x1, y1; (eexists; split; [reflexivity|]; done).
Qed.

Lemma light_wfg_body_spec (cv : Canvas) (d : GraphSnapshot) (c : Context2D) :
  exists c',
    drawWaitForGraph_body (Some cv) (Some d) c = (c', Normal)
    /\ shadow c' = shadow c
    /\ painted c'
       = painted c ++ backgroundPaints (shadow c) cv
                   ++ wfgPaints (shadow c) cv d.
Proof.
  unfold drawWaitForGraph_body, wfgPaints.
  destruct (light_clear_spec cv c) as (c1 & E1 & S1 & P1).
  rewrite (seq_Normal _ _ _ _ E1), !ndiv_2, min_sub_fin, !seq_exec.
  fold (radius cv) (centerX cv) (centerY cv).
  set (ns := default [] (nodes d)).
  set (c2 := set_lineWidth 2 (set_strokeStyle edgeColor c1)).
  assert (H2 : edge_state (shadow c) c2) by (by split).
  lazymatch goal with
  | |- exists c', (forEach ?l ?body ;; _)%draw _ = _ /\ _ =>
      destruct (forEach_from_paints (edge_state (shadow c)) body
                  (fun e _ => edgePaints (shadow c) (centerX cv) (centerY cv)
                                         (radius cv) ns e) l)
        with (i := 0%nat) (c := c2) as (c3 & E3 & H3 & P3); [| exact H2 |]
  end.
  { intros e _ c0 _ Hc0. unfold edgePaints.
    destruct (node_point _ _ _ ns (from e)) as [p1|] eqn:Ef.
    - destruct (node_point _ _ _ ns (to e)) as [p2|] eqn:Et.
      + rewrite (get_layout_Some _ _ _ _ _ _ Ef), (get_layout_Some _ _ _ _ _ _ Et).
        simpl. by apply light_drawArrow_fin.
      + destruct (get_layout_None _ _ _ _ _ Et) as [-> ->].
        destruct (_ && _); [apply light_drawArrow_nan; auto|].
        exists c0. by rewrite app_nil_r.
    - destruct (get_layout_None _ _ _ _ _ Ef) as [-> ->].
      destruct (_ && _); [apply light_drawArrow_nan; auto|].
      exists c0. by rewrite app_nil_r. }
  unfold forEach at 1. rewrite (seq_Normal _ _ _ _ E3).
  lazymatch goal with
  | |- exists c', forEach ?l ?body _ = _ /\ _ =>
      destruct (forEach_from_paints (fun c0 => shadow c0 = shadow c) body
                  (fun node _ =>
                     from_option (nodePaints (shadow c) node nodeColor) []
                       (node_point (centerX cv) (centerY cv) (radius cv) ns
                          node)) l)
        with (i := 0%nat) (c := c3) as (c4 & E4 & H4 & P4);
        [| exact (proj1 H3) |]
  end.
  { intros node _ c0 Hin Hc0.
    destruct (proj2 (node_point_is_Some (centerX cv) (centerY cv)
                       (radius cv) ns node) Hin) as [p Hp].
    rewrite (get_layout_Some _ _ _ _ _ _ Hp), Hp. simpl.
    destruct (light_drawNode_fin p node nodeColor c0) as (c' & E & S & P).
    exists c'. rewrite <- Hc0. split; [done|]. split; [congruence | done]. }
  exists c4. split; [exact E4|]. split; [exact H4|].
  rewrite P4, P3, !paints_from_flat_map. subst c2. simpl. rewrite P1.
  by rewrite <- !app_assoc.
Qed.

Lemma light_fsa_body_spec (cv : Canvas) (s : States) (cur : option string)
  (c : Context2D) :
  exists c',
    drawFSADiagram_body (Some cv) (Some s) cur c = (c', Normal)
    /\ shadow c' = shadow c
    /\ painted c'
       = painted c ++ backgroundPaints (shadow c) cv
                   ++ fsaPaints (shadow c) cv s cur.
Proof.
  unfold drawFSADiagram_body, fsaPaints.
  destruct (light_clear_spec cv c) as (c1 & E1 & S1 & P1).
  rewrite (seq_Normal _ _ _ _ E1), !ndiv_2, min_sub_fin.
  fold (radius cv) (centerX cv) (centerY cv).
  lazymatch goal with
  | |- exists c', forEach ?l ?body _ = _ /\ _ =>
      destruct (forEach_from_paints (fun c0 => shadow c0 = shadow c) body
                  (fun state i =>
                     nodePaints (shadow c) state (fsaColor cur state)
                       (circle_point (centerX cv) (centerY cv) (radius cv) i
                          (length (stateList s)))) l)
        with (i := 0%nat) (c := c1) as (c2 & E2 & H2 & P2); [| exact S1 |]
  end.
  { intros state i c0 Hin Hc0. cbv zeta.
    rewrite on_circle_fin
      by (destruct (stateList s); [by apply elem_of_nil in Hin | simpl; lia]).
    cbn [Pos.x Pos.y].
    destruct (light_drawNode_fin (circle_point (centerX cv) (centerY cv) (radius cv)
                              i (length (stateList s)))
                state (fsaColor cur state) c0) as (c' & E & S & P).
    exists c'. rewrite <- Hc0. split; [done|]. split; [congruence | done]. }
  exists c2. split; [exact E2|]. split; [exact H2|].
  by rewrite P2, P1, <- !app_assoc.
Qed.

(** A call on a visualizer with a surface paints [output] and completes as
    [completion] says, whatever was drawn or assigned before. *)
Lemma light_call_spec (cv : Canvas) (c : Context2D) (call : Call) :
  exists c',
    LightRun.call {| canvas := Some cv; context := Some c |} call
    = ({| canvas := Some cv; context := Some c' |}, completion call)
    /\ shadow c' = shadow c
    /\ painted c' = painted c ++ output (shadow c) cv call.
Proof.
  destruct call as [[d|]|[s|] cur];
    unfold LightRun.call, drawWaitForGraph, drawFSADiagram, on_context;
    cbn [context canvas output completion].
  - destruct (light_wfg_body_spec cv d c) as (c' & -> & S & P). by exists c'.
  - destruct (light_clear_spec cv c) as (c' & E & S & P).
    unfold drawWaitForGraph_body. rewrite (seq_Normal _ _ _ _ E).
    exists c'. unfold output. by rewrite app_nil_r.
  - destruct (light_fsa_body_spec cv s cur c) as (c' & -> & S & P). by exists c'.
  - destruct (light_clear_spec cv c) as (c' & E & S & P).
    unfold drawFSADiagram_body. rewrite (seq_Normal _ _ _ _ E).
    exists c'. unfold output. by rewrite app_nil_r.
Qed.

(** Without a surface, [drawWaitForGraph] returns at once and
    [drawFSADiagram] throws; the object is left as it is. *)
Lemma light_call_inert (call : Call) :
  LightRun.call {| canvas := None; context := None |} call
  = ({| canvas := None; context := None |},
     match call with
     | CallWFG _ => Normal
     | CallFSA _ _ => Throw TypeError
     end).
Proof. by destruct call. Qed.

Lemma light_run_inert (history : list Call) : LightRun.run history inert = inert.
Proof.
  induction history as [|call history IH]; [done|].
  simpl. unfold inert at 1. by rewrite light_call_inert.
Qed.

Lemma light_run_bound (cv : Canvas) (history : list Call) :
  forall c0, exists c,
    LightRun.run history {| canvas := Some cv; context := Some c0 |}
    = {| canvas := Some cv; context := Some c |}
    /\ shadow c = shadow c0.
Proof.
  induction history as [|call history IH]; intros c0; [by exists c0|].
  destruct (light_call_spec cv c0 call) as (c1 & E & S & _).
  destruct (IH c1) as (c & Ec & Sc).
  exists c. simpl. rewrite E. split; [exact Ec | congruence].
Qed.

(** The states a visualizer built on an existing canvas goes through. *)
Lemma light_reachable (document : Document) (id : string) (el : Element)
  (history : list Call) :
  document id = Some el ->
  exists c,
    LightRun.run history (constructor document id)
    = {| canvas := Some (element_canvas el); context := Some c |}
    /\ shadow c = shadow (element_context el).
Proof.
  intros H. unfold constructor. rewrite H. apply light_run_bound.
Qed.

Lemma light_reachable_inert (document : Document) (id : string)
  (history : list Call) :
  document id = None ->
  LightRun.run history (constructor document id) = inert.
Proof.
  intros H. unfold constructor. rewrite H. apply light_run_inert.
Qed.

End LightFacts.

(** ** The dark-mode renderer *)

Module DarkFacts.
Import Dark DarkSpec.

Lemma dark_shadow_None (c : Context2D) : shadowBlur c = 0%Z -> shadow c = None.
Proof. intros H. unfold shadow. by rewrite H. Qed.

Lemma dark_clearCanvas_spec (rect : Canvas) (c : Context2D) :
  shadowBlur c = 0%Z ->
  exists c', clearCanvas (Some rect) c = (c', Normal)
             /\ shadowBlur c' = 0%Z
             /\ painted c' = painted c ++ backgroundPaints rect.
Proof.
  intros H. eexists. split; [reflexivity|]. split; [exact H|].
  simpl. unfold shadow. simpl. rewrite H. by rewrite <- app_assoc.
Qed.

Lemma dark_drawNode_fin (p : R * R) (label color : string) (c : Context2D) :
  exists c', drawNode (fst p) (snd p) label color c = (c', Normal)
             /\ shadowBlur c' = 0%Z
             /\ lineWidth c' = 3%Z
             /\ painted c' = painted c ++ nodePaints label color p.
Proof.
  unfold drawNode, ctx.arc.
  destruct (Rlt_dec circleRadius 0) as [H|_];
    [unfold circleRadius in H; lra|].
  eexists. split; [reflexivity|]. split; [reflexivity|].
  split; [reflexivity|].
  simpl. by rewrite <- !app_assoc.
Qed.

Lemma dark_drawArrow_fin (p1 p2 : R * R) (c : Context2D) :
  edge_state c ->
  exists c',
    drawArrow (fst p1) (snd p1) (fst p2) (snd p2) (Some arrowColor) c
    = (c', Normal)
    /\ edge_state c'
    /\ painted c' = painted c ++ arrowPaints p1 p2.
Proof.
  intros (Hs & Hw).
  eexists. split; [reflexivity|]. split; [done|].
  simpl. rewrite Hw. unfold shadow. simpl. rewrite Hs, INR_6. simpl.
  by rewrite <- app_assoc.
Qed.

Lemma dark_drawArrow_nan (x1 y1 x2 y2 : number) (c : Context2D) :
  (x1 = NaN /\ y1 = NaN) \/ (x2 = NaN /\ y2 = NaN) ->
  edge_state c ->
  exists c', drawArrow x1 y1 x2 y2 (Some arrowColor) c = (c', Normal)
             /\ edge_state c' /\ painted c' = painted c ++ [].
Proof.
  intros Hnan Hc. rewrite app_nil_r.
  destruct Hnan as [[-> ->]|[-> ->]].
  - destruct x2, y2; (eexists; split; [reflexivity|]; done).
  - destruct x1, y1; (eexists; split; [reflexivity|]; done).
Qed.

Lemma dark_wfg_body_spec (rect : Canvas) (d : GraphSnapshot) (c : Context2D) :
  shadowBlur c = 0%Z ->
  exists c',
    drawWaitForGraph_body (Some rect) d c = (c', Normal)
    /\ shadowBlur c' = 0%Z
    /\ painted c' = painted c ++ backgroundPaints rect ++ wfgPaints rect d.
Proof.
  intros H0. unfold drawWaitForGraph_body, wfgPaints.
  destruct (dark_clearCanvas_spec rect c H0) as (c1 & E1 & S1 & P1).
  rewrite (seq_Normal _ _ _ _ E1), !ndiv_2, min_sub_fin, !seq_exec.
  fold (radius rect) (centerX rect) (centerY rect).
  set (ns := default [] (nodes d)).
  set (c2 := set_lineWidth 2 (set_strokeStyle lineColor c1)).
  assert (H2 : edge_state c2) by (by split).
  lazymatch goal with
  | |- exists c', (forEach ?l ?body ;; _)%draw _ = _ /\ _ =>
      destruct (forEach_from_paints edge_state body
                  (fun e _ => edgePaints (centerX rect) (centerY rect)
                                         (radius rect) ns e) l)
        with (i := 0%nat) (c := c2) as (c3 & E3 & H3 & P3); [| exact H2 |]
  end.
  { intros e _ c0 _ Hc0. unfold edgePaints.
    destruct (node_point _ _ _ ns (from e)) as [p1|] eqn:Ef.
    - destruct (node_point _ _ _ ns (to e)) as [p2|] eqn:Et.
      + rewrite (get_layout_Some _ _ _ _ _ _ Ef), (get_layout_Some _ _ _ _ _ _ Et).
        simpl. by apply dark_drawArrow_fin.
      + destruct (get_layout_None _ _ _ _ _ Et) as [-> ->].
        destruct (_ && _); [apply dark_drawArrow_nan; auto|].
        exists c0. by rewrite app_nil_r.
    - destruct (get_layout_None _ _ _ _ _ Ef) as [-> ->].
      destruct (_ && _); [apply dark_drawArrow_nan; auto|].
      exists c0. by rewrite app_nil_r. }
  unfold forEach at 1. rewrite (seq_Normal _ _ _ _ E3).
  lazymatch goal with
  | |- exists c', forEach ?l ?body _ = _ /\ _ =>
      destruct (forEach_from_paints (fun c0 => shadowBlur c0 = 0%Z) body
                  (fun node _ =>
                     from_option (nodePaints node (wfgColor d node)) []
                       (node_point (centerX rect) (centerY rect)
                          (radius rect) ns node)) l)
        with (i := 0%nat) (c := c3) as (c4 & E4 & H4 & P4);
        [| exact (proj1 H3) |]
  end.
  { intros node _ c0 Hin Hc0.
    destruct (proj2 (node_point_is_Some (centerX rect) (centerY rect)
                       (radius rect) ns node) Hin) as [p Hp].
    rewrite (get_layout_Some _ _ _ _ _ _ Hp), Hp. simpl.
    destruct (dark_drawNode_fin p node (wfgColor d node) c0)
      as (c' & E & S & _ & P).
    by exists c'. }
  exists c4. split; [exact E4|]. split; [exact H4|].
  rewrite P4, P3, !paints_from_flat_map. subst c2. simpl. rewrite P1.
  by rewrite <- !app_assoc.
Qed.

Lemma dark_fsa_body_spec (rect : Canvas) (s : States) (cur : option string)
  (c : Context2D) :
  shadowBlur c = 0%Z ->
  exists c',
    drawFSADiagram_body (Some rect) s cur c = (c', Normal)
    /\ shadowBlur c' = 0%Z
    /\ painted c'
       = painted c ++ backgroundPaints rect ++ fsaPaints rect s cur.
Proof.
  intros H0. unfold drawFSADiagram_body, fsaPaints.
  destruct (dark_clearCanvas_spec rect c H0) as (c1 & E1 & S1 & P1).
  rewrite (seq_Normal _ _ _ _ E1), !ndiv_2, min_sub_fin.
  fold (radius rect) (centerX rect) (centerY rect).
  lazymatch goal with
  | |- exists c', forEach ?l ?body _ = _ /\ _ =>
      destruct (forEach_from_paints (fun c0 => shadowBlur c0 = 0%Z) body
                  (fun state i =>
                     nodePaints state (fsaColor cur state)
                       (circle_point (centerX rect) (centerY rect)
                          (radius rect) i (length (stateList s)))) l)
        with (i := 0%nat) (c := c1) as (c2 & E2 & H2 & P2); [| exact S1 |]
  end.
  { intros state i c0 Hin Hc0. cbv zeta.
    rewrite on_circle_fin
      by (destruct (stateList s); [by apply elem_of_nil in Hin | simpl; lia]).
    cbn [Pos.x Pos.y].
    destruct (dark_drawNode_fin (circle_point (centerX rect) (centerY rect)
                              (radius rect) i (length (stateList s)))
                state (fsaColor cur state) c0) as (c' & E & S & _ & P).
    by exists c'. }
  exists c2. split; [exact E2|]. split; [exact H2|].
  by rewrite P2, P1, <- !app_assoc.
Qed.

(** A call on a visualizer with a surface paints [output] and returns
    normally, whatever was drawn before. *)
Lemma dark_call_spec (rect : Canvas) (c : Context2D) (call : Call) :
  shadowBlur c = 0%Z ->
  exists c',
    DarkRun.call {| canvas := Some rect; context := Some c |} call
    = ({| canvas := Some rect; context := Some c' |}, Normal)
    /\ shadowBlur c' = 0%Z
    /\ painted c' = painted c ++ output rect call.
Proof.
  intros H0.
  destruct call as [[d|]|[s|] cur];
    unfold DarkRun.call, drawWaitForGraph, drawFSADiagram, on_context;
    cbn [context canvas output].
  - destruct (dark_wfg_body_spec rect d c H0) as (c' & -> & S & P). by exists c'.
  - exists c. by rewrite app_nil_r.
  - destruct (dark_fsa_body_spec rect s cur c H0) as (c' & -> & S & P).
    by exists c'.
  - exists c. by rewrite app_nil_r.
Qed.

(** Without a surface every call returns at once. *)
Lemma dark_call_inert (call : Call) :
  DarkRun.call {| canvas := None; context := None |} call
  = ({| canvas := None; context := None |}, Normal).
Proof. by destruct call as [[d|]|[s|] cur]. Qed.

Lemma dark_run_inert (history : list Call) : DarkRun.run history inert = inert.
Proof.
  induction history as [|call history IH]; [done|].
  simpl. unfold inert at 1. by rewrite dark_call_inert.
Qed.

Lemma dark_run_bound (rect : Canvas) (history : list Call) :
  forall c0, shadowBlur c0 = 0%Z ->
  exists c,
    DarkRun.run history {| canvas := Some rect; context := Some c0 |}
    = {| canvas := Some rect; context := Some c |}
    /\ shadowBlur c = 0%Z.
Proof.
  induction history as [|call history IH]; intros c0 H0; [by exists c0|].
  destruct (dark_call_spec rect c0 call H0) as (c1 & E & S & _).
  destruct (IH c1 S) as (c & Ec & Sc).
  exists c. simpl. by rewrite E.
Qed.

(** The states a visualizer built on an existing canvas goes through: its
    canvas keeps the rectangle of the element. *)
Lemma dark_reachable (document : Document) (dpr : number) (id : string)
  (el : Element) (history : list Call) :
  document id = Some el ->
  exists rect c,
    DarkRun.run history (constructor document dpr id)
    = {| canvas := Some rect; context := Some c |}
    /\ rect_width rect = rect_width (element_canvas el)
    /\ rect_height rect = rect_height (element_canvas el)
    /\ shadowBlur c = 0%Z.
Proof.
  intros H. unfold constructor. rewrite H.
  eexists. edestruct dark_run_bound as (c & E & S); [|exists c; rewrite E; eauto].
  reflexivity.
Qed.

Lemma dark_reachable_inert (document : Document) (dpr : number) (id : string)
  (history : list Call) :
  document id = None ->
  DarkRun.run history (constructor document dpr id) = inert.
Proof.
  intros H. unfold constructor. rewrite H. apply dark_run_inert.
Qed.

(** What is painted depends on the rectangle of the canvas only. *)
Lemma dark_output_rect (rect rect' : Canvas) (call : Call) :
  rect_width rect = rect_width rect' ->
  rect_height rect = rect_height rect' ->
  output rect call = output rect' call.
Proof.
  intros Hw Hh.
  unfold output, backgroundPaints, wfgPaints, fsaPaints, centerX, centerY,
    radius.
  by rewrite Hw, Hh.
Qed.

End DarkFacts.

(** ** Renders of a visualizer built on an existing canvas *)

Lemma light_renders (document : Document) (id : string) (el : Element)
  (history : list Call) (call : Call) :
  document id = Some el ->
  LightSpec.completion call = Normal ->
  renders LightRun.call (LightRun.run history (Light.constructor document id))
    call
    (LightSpec.output (shadow (element_context el)) (element_canvas el) call).
Proof.
  intros Hel Hc.
  destruct (LightFacts.light_reachable document id el history Hel) as (c & -> & S).
  destruct (LightFacts.light_call_spec (element_canvas el) c call) as (c' & E & _ & P).
  eexists. split; [by rewrite E, Hc|]. unfold surface. simpl. by rewrite P, S.
Qed.

Lemma dark_renders (document : Document) (dpr : number) (id : string)
  (el : Element) (history : list Call) (call : Call) :
  document id = Some el ->
  renders DarkRun.call
    (DarkRun.run history (Dark.constructor document dpr id)) call
    (DarkSpec.output (element_canvas el) call).
Proof.
  intros Hel.
  destruct (DarkFacts.dark_reachable document dpr id el history Hel)
    as (rect & c & -> & Hw & Hh & S).
  destruct (DarkFacts.dark_call_spec rect c call S) as (c' & E & _ & P).
  eexists. split; [exact E|]. unfold surface. simpl.
  by rewrite P, (DarkFacts.dark_output_rect rect (element_canvas el) call Hw Hh).
Qed.

Lemma flat_map_nil {A B} (f : A -> list B) (l : list A) :
  (forall x, f x = []) -> flat_map f l = [].
Proof.
  intros H. induction l as [|x l IH]; simpl; [done|]. by rewrite H, IH.
Qed.

(** ** The transform *)

Create HintDb transform.

Lemma keeps_ret : keeps_transform ret.
Proof. by intros c. Qed.

Lemma keeps_throw (e : Error) : keeps_transform (throw e).
Proof. by intros c. Qed.

Lemma keeps_exec (f : Context2D -> Context2D) :
  (forall c, scaleX (f c) = scaleX c /\ scaleY (f c) = scaleY c) ->
  keeps_transform (exec f).
Proof. intros H c. apply H. Qed.

Lemma keeps_seq (a b : Draw) :
  keeps_transform a -> keeps_transform b -> keeps_transform (a ;; b).
Proof.
  intros Ha Hb c. unfold seq. destruct (Ha c) as [Ax Ay].
  destruct (a c) as [c' [|e]]; simpl in *; [|done].
  destruct (Hb c') as [Hx Hy]. split; congruence.
Qed.

Lemma keeps_forEach_from {A} (body : A -> nat -> Draw) (l : list A) :
  (forall x i, keeps_transform (body x i)) ->
  forall i, keeps_transform (forEach_from i l body).
Proof.
  intros Hbody. induction l as [|x l IH]; intros i; simpl.
  - apply keeps_ret.
  - apply keeps_seq; [apply Hbody | apply IH].
Qed.

Lemma keeps_forEach {A} (body : A -> nat -> Draw) (l : list A) :
  (forall x i, keeps_transform (body x i)) -> keeps_transform (forEach l body).
Proof. intros H. by apply keeps_forEach_from. Qed.

Ltac keeps_setter := apply keeps_exec; intros c; split; reflexivity.

Lemma keeps_beginPath : keeps_transform ctx.beginPath.
Proof. keeps_setter. Qed.

Lemma keeps_moveTo (x y : number) : keeps_transform (ctx.moveTo x y).
Proof. destruct x, y; (apply keeps_ret || keeps_setter). Qed.

Lemma keeps_lineTo (x y : number) : keeps_transform (ctx.lineTo x y).
Proof. destruct x, y; (apply keeps_ret || keeps_setter). Qed.

Lemma keeps_closePath : keeps_transform ctx.closePath.
Proof. intros c. unfold ctx.closePath, exec. simpl. by destruct (path c). Qed.

Lemma keeps_arc (x y : number) (radius a0 a1 : R) :
  keeps_transform (ctx.arc x y radius a0 a1).
Proof.
  unfold ctx.arc. destruct x, y; try apply keeps_ret.
  destruct (Rlt_dec radius 0); [apply keeps_throw | keeps_setter].
Qed.

Lemma keeps_fill : keeps_transform ctx.fill.
Proof. intros c. unfold ctx.fill, exec. simpl. by destruct (path c). Qed.

Lemma keeps_stroke : keeps_transform ctx.stroke.
Proof. intros c. unfold ctx.stroke, exec. simpl. by destruct (path c). Qed.

Lemma keeps_clearRect (x y w h : number) :
  keeps_transform (ctx.clearRect x y w h).
Proof. destruct x, y, w, h; (apply keeps_ret || keeps_setter). Qed.

Lemma keeps_fillRect (x y w h : number) :
  keeps_transform (ctx.fillRect x y w h).
Proof. destruct x, y, w, h; (apply keeps_ret || keeps_setter). Qed.

Lemma keeps_fillText (text : string) (x y : number) :
  keeps_transform (ctx.fillText text x y).
Proof. destruct x, y; (apply keeps_ret || keeps_setter). Qed.

#[global] Hint Resolve keeps_ret keeps_throw keeps_seq keeps_forEach
  keeps_beginPath keeps_moveTo keeps_lineTo keeps_closePath keeps_arc
  keeps_fill keeps_stroke keeps_clearRect keeps_fillRect keeps_fillText
  : transform.
#[global] Hint Extern 1 (keeps_transform (exec _)) => keeps_setter : transform.

Lemma keeps_light_drawNode (x y : number) (label color : string) :
  keeps_transform (Light.drawNode x y label color).
Proof. unfold Light.drawNode. auto 20 with transform. Qed.

Lemma keeps_light_drawArrow (x1 y1 x2 y2 : number) :
  keeps_transform (Light.drawArrow x1 y1 x2 y2).
Proof. unfold Light.drawArrow. auto 20 with transform. Qed.

Lemma keeps_light_clear (cv : option Canvas) : keeps_transform (Light.clear cv).
Proof. unfold Light.clear. destruct cv; auto 20 with transform. Qed.

Lemma keeps_dark_drawNode (x y : number) (label color : string) :
  keeps_transform (Dark.drawNode x y label color).
Proof. unfold Dark.drawNode. auto 20 with transform. Qed.

Lemma keeps_dark_drawArrow (x1 y1 x2 y2 : number) (color : option string) :
  keeps_transform (Dark.drawArrow x1 y1 x2 y2 color).
Proof. unfold Dark.drawArrow. auto 20 with transform. Qed.

Lemma keeps_dark_clearCanvas (cv : option Canvas) :
  keeps_transform (Dark.clearCanvas cv).
Proof. unfold Dark.clearCanvas. destruct cv; auto 20 with transform. Qed.

#[global] Hint Resolve keeps_light_drawNode keeps_light_drawArrow
  keeps_light_clear keeps_dark_drawNode keeps_dark_drawArrow
  keeps_dark_clearCanvas : transform.

Lemma keeps_light_wfg (cv : option Canvas) (wfgData : option GraphSnapshot) :
  keeps_transform (Light.drawWaitForGraph_body cv wfgData).
Proof.
  unfold Light.drawWaitForGraph_body.
  apply keeps_seq; [auto with transform|].
  destruct wfgData as [d|], cv as [cv|]; auto with transform.
  cbv zeta.
  apply keeps_seq; [auto with transform|].
  apply keeps_seq; [auto with transform|].
  apply keeps_seq; apply keeps_forEach; intros x i.
  - cbv zeta. destruct (_ && _); auto with transform.
  - destruct (get _ x); auto with transform.
Qed.

Lemma keeps_light_fsa (cv : option Canvas) (s : option States)
  (cur : option string) :
  keeps_transform (Light.drawFSADiagram_body cv s cur).
Proof.
  unfold Light.drawFSADiagram_body.
  apply keeps_seq; [auto with transform|].
  destruct s as [s|], cv as [cv|]; auto with transform.
Qed.

Lemma keeps_dark_wfg (cv : option Canvas) (d : GraphSnapshot) :
  keeps_transform (Dark.drawWaitForGraph_body cv d).
Proof.
  unfold Dark.drawWaitForGraph_body.
  apply keeps_seq; [auto with transform|].
  destruct cv as [cv|]; auto with transform.
  cbv zeta.
  apply keeps_seq; [auto with transform|].
  apply keeps_seq; [auto with transform|].
  apply keeps_seq; apply keeps_forEach; intros x i.
  - cbv zeta. destruct (_ && _); auto with transform.
  - destruct (get _ x); auto with transform.
Qed.

Lemma keeps_dark_fsa (cv : option Canvas) (s : States) (cur : option string) :
  keeps_transform (Dark.drawFSADiagram_body cv s cur).
Proof.
  unfold Dark.drawFSADiagram_body.
  apply keeps_seq; [auto with transform|].
  destruct cv as [cv|]; auto with transform.
Qed.

Lemma on_context_keeps (this : DeadlockVisualizer) (c : Context2D) (d : Draw) :
  context this = Some c -> keeps_transform d ->
  transform_of (fst (on_context this c d)) = transform_of this
  /\ canvas (fst (on_context this c d)) = canvas this.
Proof.
  intros Hc Hd. unfold on_context, transform_of. destruct (Hd c) as [Hx Hy].
  destruct (d c) as [c' r]. simpl in *. by rewrite Hc, Hx, Hy.
Qed.

Lemma light_call_keeps (this : DeadlockVisualizer) (call : Call) :
  transform_of (fst (LightRun.call this call)) = transform_of this
  /\ canvas (fst (LightRun.call this call)) = canvas this.
Proof.
  destruct call as [d|s cur]; simpl;
    unfold Light.drawWaitForGraph, Light.drawFSADiagram;
    destruct (context this) as [c|] eqn:Hc; try done;
    apply on_context_keeps; auto using keeps_light_wfg, keeps_light_fsa.
Qed.

Lemma dark_call_keeps (this : DeadlockVisualizer) (call : Call) :
  transform_of (fst (DarkRun.call this call)) = transform_of this
  /\ canvas (fst (DarkRun.call this call)) = canvas this.
Proof.
  destruct call as [[d|]|[s|] cur]; simpl;
    unfold Dark.drawWaitForGraph, Dark.drawFSADiagram;
    destruct (context this) as [c|] eqn:Hc; try done;
    apply on_context_keeps; auto using keeps_dark_wfg, keeps_dark_fsa.
Qed.

Lemma light_run_keeps (history : list Call) :
  forall this,
    transform_of (LightRun.run history this) = transform_of this
    /\ canvas (LightRun.run history this) = canvas this.
Proof.
  induction history as [|call history IH]; intros this; [done|].
  simpl. destruct (IH (fst (LightRun.call this call))) as [-> ->].
  apply light_call_keeps.
Qed.

Lemma dark_run_keeps (history : list Call) :
  forall this,
    transform_of (DarkRun.run history this) = transform_of this
    /\ canvas (DarkRun.run history this) = canvas this.
Proof.
  induction history as [|call history IH]; intros this; [done|].
  simpl. destruct (IH (fst (DarkRun.call this call))) as [-> ->].
  apply dark_call_keeps.
Qed.

(** ** Null input in the dark-mode renderer *)

(** C10: in the dark-mode renderer, [drawWaitForGraph] called with a null or
    undefined snapshot and [drawFSADiagram] called with null or undefined
    states return normally before [clearCanvas]: the visualizer, and with it
    every paint on its surface, is exactly what it was; no background fill is
    added. *)
Theorem dark_null_input_leaves_surface (this : DeadlockVisualizer)
  (currentState : option string) :
  Dark.drawWaitForGraph this None = (this, Normal)
  /\ Dark.drawFSADiagram this None currentState = (this, Normal)
  /\ surface (fst (Dark.drawWaitForGraph this None)) = surface this
  /\ surface (fst (Dark.drawFSADiagram this None currentState)) = surface this.
Proof.
  unfold Dark.drawWaitForGraph, Dark.drawFSADiagram.
  by destruct (context this).
Qed.

(** ** Repeated renders *)

Lemma shown_app (w h : R) (before paints : list Paint) :
  shown w h (before ++ paints)
  = fold_left (fun picture p => if full_clear w h p then [] else picture ++ [p])
              paints (shown w h before).
Proof. unfold shown. apply fold_left_app. Qed.

Lemma fold_left_kept (w h : R) (paints : list Paint) :
  Forall (fun p => full_clear w h p = false) paints ->
  forall picture,
    fold_left (fun picture p => if full_clear w h p then [] else picture ++ [p])
              paints picture
    = picture ++ paints.
Proof.
  induction 1 as [|p paints Hp _ IH]; intros picture; simpl.
  - by rewrite app_nil_r.
  - by rewrite Hp, IH, <- app_assoc.
Qed.

(** After a [clearRect] of the rectangle, the picture is what was painted
    since, whatever was on the surface. *)
Lemma shown_after_clear (w h : R) (before rest : list Paint) :
  Forall (fun p => full_clear w h p = false) rest ->
  shown w h (before ++ ClearRect 0 0 w h :: rest) = rest.
Proof.
  intros H. rewrite shown_app. cbn [fold_left full_clear].
  rewrite bool_decide_true by done.
  by rewrite (fold_left_kept w h rest H []).
Qed.

Lemma flat_map_Forall {A} (P : Paint -> Prop) (f : A -> list Paint)
  (l : list A) :
  (forall x, Forall P (f x)) -> Forall P (flat_map f l).
Proof.
  intros H. induction l as [|x l IH]; simpl; [done|].
  apply Forall_app. by split.
Qed.

Lemma paints_from_Forall {A} (P : Paint -> Prop) (out : A -> nat -> list Paint)
  (l : list A) :
  (forall x i, Forall P (out x i)) -> forall i, Forall P (paints_from out i l).
Proof.
  intros H. induction l as [|x l IH]; intros i; simpl; [done|].
  apply Forall_app. by split.
Qed.

(** Every render of the original class begins with the clear of the whole
    canvas and the background; nothing it paints after that clears. *)
Lemma light_output_picture (sh : Shadow) (cv : Canvas) (call : Call) :
  exists rest,
    LightSpec.output sh cv call
    = ClearRect 0 0 (width cv) (height cv)
      :: FillRect 0 0 (width cv) (height cv) Light.background sh :: rest
    /\ Forall (fun p => full_clear (width cv) (height cv) p = false) rest.
Proof.
  eexists. split; [reflexivity|].
  assert (Hnode : forall label color p,
            Forall (fun p => full_clear (width cv) (height cv) p = false)
                   (LightSpec.nodePaints sh label color p))
    by (intros; unfold LightSpec.nodePaints; by repeat constructor).
  destruct call as [[d|]|[s|] cur]; cbn [app]; try done.
  - unfold LightSpec.wfgPaints. cbv zeta.
    apply Forall_app. split; apply flat_map_Forall; intros x.
    + unfold LightSpec.edgePaints.
      repeat case_match; try done.
      unfold LightSpec.arrowPaints. by repeat constructor.
    + destruct (node_point _ _ _ _ x); cbn [from_option];
        [apply Hnode | done].
  - unfold LightSpec.fsaPaints. apply paints_from_Forall. intros x i.
    apply Hnode.
Qed.

(** So does every render of the dark-mode class, which paints nothing when
    its argument is null. *)
Lemma dark_output_picture (rect : Canvas) (call : Call) :
  match call with
  | CallWFG None | CallFSA None _ => DarkSpec.output rect call = []
  | _ =>
      exists rest,
        DarkSpec.output rect call
        = ClearRect 0 0 (rect_width rect) (rect_height rect)
          :: FillRect 0 0 (rect_width rect) (rect_height rect)
               Dark.background None :: rest
        /\ Forall (fun p => full_clear (rect_width rect) (rect_height rect) p
                            = false) rest
  end.
Proof.
  assert (Hnode : forall label color p,
            Forall (fun p => full_clear (rect_width rect) (rect_height rect) p
                             = false)
                   (DarkSpec.nodePaints label color p))
    by (intros; unfold DarkSpec.nodePaints; by repeat constructor).
  destruct call as [[d|]|[s|] cur]; try done;
    (eexists; split; [reflexivity|]).
  - unfold DarkSpec.wfgPaints. cbv zeta.
    apply Forall_app. split; apply flat_map_Forall; intros x.
    + unfold DarkSpec.edgePaints.
      repeat case_match; try done.
      unfold DarkSpec.arrowPaints. by repeat constructor.
    + destruct (node_point _ _ _ _ x); cbn [from_option];
        [apply Hnode | done].
  - unfold DarkSpec.fsaPaints. apply paints_from_Forall. intros x i.
    apply Hnode.
Qed.

(** C9: what a render call paints, and how it completes, is a function of the
    canvas element and of the call's arguments alone: it is the same after
    every history of earlier calls on the visualizer, in both renderers, for
    [drawWaitForGraph] and for [drawFSADiagram]; the transform and the
    canvas are left as they were.  What is painted begins with the clear of
    the whole rectangle of the canvas and the background fill, and clears
    nothing after that, so that nothing of an earlier frame is left: the
    picture after the call is what this call painted after its clear, and
    the same call made again gives the same picture.  The two exceptions
    paint nothing and leave the surface as it is: a visualizer whose canvas
    was not found, and the dark-mode renderer given null. *)
Theorem render_twice_identical (document : Document) (dpr : number)
  (id : string) (call : Call) :
  (exists out r,
      match document id with
      | Some el =>
          let cv := element_canvas el in
          let sh := shadow (element_context el) in
          out = LightSpec.output sh cv call
          /\ exists rest,
               out = ClearRect 0 0 (width cv) (height cv)
                     :: FillRect 0 0 (width cv) (height cv) Light.background sh
                     :: rest
      | None => out = []
      end
      /\ forall history,
          let v0 := LightRun.run history (Light.constructor document id) in
          let v1 := fst (LightRun.call v0 call) in
          let v2 := fst (LightRun.call v1 call) in
          snd (LightRun.call v0 call) = r /\ snd (LightRun.call v1 call) = r
          /\ surface v1 = surface v0 ++ out /\ surface v2 = surface v1 ++ out
          /\ transform_of v2 = transform_of v1 /\ canvas v2 = canvas v1
          /\ match document id with
             | Some el =>
                 let cv := element_canvas el in
                 shown (width cv) (height cv) (surface v1) = tl out
                 /\ shown (width cv) (height cv) (surface v2) = tl out
             | None => surface v1 = [] /\ surface v2 = []
             end)
  /\ (exists out r,
      match document id with
      | Some el =>
          let rect := element_canvas el in
          out = DarkSpec.output rect call
          /\ match call with
             | CallWFG None | CallFSA None _ => out = []
             | _ =>
                 exists rest,
                   out = ClearRect 0 0 (rect_width rect) (rect_height rect)
                         :: FillRect 0 0 (rect_width rect) (rect_height rect)
                              Dark.background None
                         :: rest
             end
      | None => out = []
      end
      /\ forall history,
          let v0 := DarkRun.run history (Dark.constructor document dpr id) in
          let v1 := fst (DarkRun.call v0 call) in
          let v2 := fst (DarkRun.call v1 call) in
          snd (DarkRun.call v0 call) = r /\ snd (DarkRun.call v1 call) = r
          /\ surface v1 = surface v0 ++ out /\ surface v2 = surface v1 ++ out
          /\ transform_of v2 = transform_of v1 /\ canvas v2 = canvas v1
          /\ match document id, out with
             | Some el, _ :: picture =>
                 let rect := element_canvas el in
                 shown (rect_width rect) (rect_height rect) (surface v1)
                 = picture
                 /\ shown (rect_width rect) (rect_height rect) (surface v2)
                    = picture
             | Some _, [] => surface v1 = surface v0 /\ surface v2 = surface v0
             | None, _ => surface v1 = [] /\ surface v2 = []
             end).
Proof.
  split.
  - destruct (document id) as [el|] eqn:Hel.
    + exists (LightSpec.output (shadow (element_context el))
                (element_canvas el) call), (LightSpec.completion call).
      destruct (light_output_picture (shadow (element_context el))
                  (element_canvas el) call) as (rest & Hout & Hrest).
      split; [split; [done | by exists rest]|].
      intros history.
      destruct (LightFacts.light_reachable document id el history Hel)
        as (c & E & S).
      destruct (LightFacts.light_call_spec (element_canvas el) c call)
        as (c1 & E1 & S1 & P1).
      destruct (LightFacts.light_call_spec (element_canvas el) c1 call)
        as (c2 & E2 & S2 & P2).
      cbv zeta. rewrite E, E1. cbn [fst snd].
      destruct (light_call_keeps
                  {| canvas := Some (element_canvas el); context := Some c1 |}
                  call) as [Ht Hc].
      rewrite E2 in *. cbn [fst snd] in *.
      unfold surface. cbn [context].
      rewrite P2, P1, S1, S.
      repeat (split; [done|]).
      rewrite Hout. cbn [tl].
      assert (Hfill : Forall (fun p => full_clear (width (element_canvas el))
                                         (height (element_canvas el)) p = false)
                        (FillRect 0 0 (width (element_canvas el))
                           (height (element_canvas el)) Light.background
                           (shadow (element_context el)) :: rest))
        by by constructor.
      split; by apply shown_after_clear.
    + exists [], (match call with
                  | CallWFG _ => Normal
                  | CallFSA _ _ => Throw TypeError
                  end).
      split; [done|].
      intros history. cbv zeta.
      rewrite (LightFacts.light_reachable_inert document id history Hel).
      unfold inert. rewrite LightFacts.light_call_inert. cbn [fst snd].
      by rewrite LightFacts.light_call_inert.
  - destruct (document id) as [el|] eqn:Hel.
    + exists (DarkSpec.output (element_canvas el) call), Normal.
      pose proof (dark_output_picture (element_canvas el) call) as Hpic.
      split.
      { split; [done|].
        destruct call as [[d|]|[s|] cur]; try done;
          destruct Hpic as (rest & -> & _); by exists rest. }
      intros history.
      destruct (DarkFacts.dark_reachable document dpr id el history Hel)
        as (rect & c & E & Hw & Hh & S).
      destruct (DarkFacts.dark_call_spec rect c call S) as (c1 & E1 & S1 & P1).
      destruct (DarkFacts.dark_call_spec rect c1 call S1) as (c2 & E2 & S2 & P2).
      cbv zeta. rewrite E, E1. cbn [fst snd].
      destruct (dark_call_keeps {| canvas := Some rect; context := Some c1 |}
                  call) as [Ht Hc].
      rewrite E2 in *. cbn [fst snd] in *.
      unfold surface. cbn [context].
      rewrite P2, P1.
      rewrite (DarkFacts.dark_output_rect rect (element_canvas el) call Hw Hh).
      repeat (split; [done|]).
      destruct call as [[d|]|[s|] cur];
        try (rewrite Hpic, !app_nil_r; done);
        destruct Hpic as (rest & -> & Hrest);
        (assert (Hfill : Forall (fun p => full_clear
                                            (rect_width (element_canvas el))
                                            (rect_height (element_canvas el)) p
                                          = false)
                           (FillRect 0 0 (rect_width (element_canvas el))
                              (rect_height (element_canvas el))
                              Dark.background None :: rest))
           by by constructor);
        split; by apply shown_after_clear.
    + exists [], Normal.
      split; [done|].
      intros history. cbv zeta.
      rewrite (DarkFacts.dark_reachable_inert document dpr id history Hel).
      unfold inert. rewrite DarkFacts.dark_call_inert. cbn [fst snd].
      by rewrite DarkFacts.dark_call_inert.
Qed.

(** ** A canvas that is not found *)

(** C2: on a page where the canvas is not found, both constructors return an
    object without canvas and context, and the calls of the dark-mode
    renderer and [drawWaitForGraph] of the original renderer return at once;
    but [drawFSADiagram] of the original renderer, which has no guard on
    [this.ctx], throws a TypeError. *)
Theorem light_drawFSADiagram_throws_without_canvas (id : string)
  (dpr : number) (wfgData : option GraphSnapshot) (states : option States)
  (currentState : option string) :
  Light.constructor empty_page id = inert
  /\ Dark.constructor empty_page dpr id = inert
  /\ Dark.drawWaitForGraph inert wfgData = (inert, Normal)
  /\ Dark.drawFSADiagram inert states currentState = (inert, Normal)
  /\ Light.drawWaitForGraph inert wfgData = (inert, Normal)
  /\ Light.drawFSADiagram inert states currentState
     = (inert, Throw TypeError).
Proof.
  split; [reflexivity|]. split; [reflexivity|].
  split; [apply (DarkFacts.dark_call_inert (CallWFG wfgData))|].
  split; [apply (DarkFacts.dark_call_inert (CallFSA states currentState))|].
  split; reflexivity.
Qed.

(** ** The shape of what a wait-for graph render paints *)

Lemma flat_map_filter {A B} (P : A -> Prop) `{!forall x, Decision (P x)}
  (f : A -> list B) (l : list A) :
  (forall x, ~ P x -> f x = []) -> flat_map f l = flat_map f (filter P l).
Proof.
  intros Hnil. induction l as [|x l IH]; simpl; [done|].
  rewrite filter_cons. destruct (decide (P x)) as [Hx|Hx]; simpl.
  - by rewrite IH.
  - by rewrite (Hnil x Hx), IH.
Qed.

Lemma flat_map_ext_in {A B} (f g : A -> list B) (l : list A) :
  (forall x, x ∈ l -> f x = g x) -> flat_map f l = flat_map g l.
Proof.
  induction l as [|x l IH]; intros H; simpl; [done|].
  rewrite (H x) by left. rewrite IH; [done|].
  intros y Hy. apply H. by right.
Qed.

Section Shape.
Context (arrow : R * R -> R * R -> list Paint).
Context (node : string -> R * R -> list Paint).
Context (cx cy r : R) (nodes : list string).

(** The arrows are those of the edges whose two endpoints are nodes. *)
Lemma edges_shape (edges : list Edge) :
  flat_map
    (fun e =>
       match node_point cx cy r nodes (from e),
             node_point cx cy r nodes (to e) with
       | Some p1, Some p2 => arrow p1 p2
       | _, _ => []
       end)
    edges
  = flat_map (fun e => arrow (position cx cy r nodes (from e))
                             (position cx cy r nodes (to e)))
             (filter (known nodes) edges).
Proof.
  rewrite (flat_map_filter (known nodes)).
  - apply flat_map_ext_in. intros e He.
    apply list_elem_of_filter in He as [[Hf Ht] _].
    apply (node_point_is_Some cx cy r) in Hf as [p1 Hp1].
    apply (node_point_is_Some cx cy r) in Ht as [p2 Hp2].
    unfold position. by rewrite Hp1, Hp2.
  - intros e He.
    destruct (node_point cx cy r nodes (from e)) eqn:Ef; [|done].
    destruct (node_point cx cy r nodes (to e)) eqn:Et; [|done].
    exfalso. apply He. split; apply (node_point_is_Some cx cy r); eauto.
Qed.

(** Every node is drawn, at its position. *)
Lemma nodes_shape :
  flat_map (fun id => from_option (node id) [] (node_point cx cy r nodes id))
           nodes
  = flat_map (fun id => node id (position cx cy r nodes id)) nodes.
Proof.
  apply flat_map_ext_in. intros id Hid.
  apply (node_point_is_Some cx cy r) in Hid as [p Hp].
  unfold position. by rewrite Hp.
Qed.

(** When the names are unique the node of index [i] is at point [i]. *)
Lemma nodes_shape_NoDup :
  NoDup nodes ->
  flat_map (fun id => node id (position cx cy r nodes id)) nodes
  = paints_from
      (fun id i => node id (circle_point cx cy r i (length nodes))) 0 nodes.
Proof.
  intros Hnd.
  rewrite <- (paints_from_flat_map _ nodes 0).
  apply paints_from_ext. intros k id Hk. unfold position.
  by rewrite (node_point_NoDup cx cy r nodes k id Hnd Hk).
Qed.

End Shape.

Lemma light_wfg_shape (sh : Shadow) (cv : Canvas) (d : GraphSnapshot) :
  let nodes := default [] (nodes d) in
  let pos := position (LightSpec.centerX cv) (LightSpec.centerY cv)
               (LightSpec.radius cv) nodes in
  LightSpec.wfgPaints sh cv d
  = flat_map (fun e => LightSpec.arrowPaints sh (pos (from e)) (pos (to e)))
             (filter (known nodes) (default [] (edges d)))
    ++ flat_map (fun id => LightSpec.nodePaints sh id Light.nodeColor (pos id))
                nodes.
Proof.
  cbv zeta. unfold LightSpec.wfgPaints, LightSpec.edgePaints.
  by rewrite edges_shape, nodes_shape.
Qed.

Lemma dark_wfg_shape (rect : Canvas) (d : GraphSnapshot) :
  let nodes := default [] (nodes d) in
  let pos := position (DarkSpec.centerX rect) (DarkSpec.centerY rect)
               (DarkSpec.radius rect) nodes in
  DarkSpec.wfgPaints rect d
  = flat_map (fun e => DarkSpec.arrowPaints (pos (from e)) (pos (to e)))
             (filter (known nodes) (default [] (edges d)))
    ++ flat_map
         (fun id => DarkSpec.nodePaints id (DarkSpec.wfgColor d id) (pos id))
         nodes.
Proof.
  cbv zeta. unfold DarkSpec.wfgPaints, DarkSpec.edgePaints.
  by rewrite edges_shape,
       (nodes_shape (fun id => DarkSpec.nodePaints id (DarkSpec.wfgColor d id))).
Qed.

(** ** Edges with an unknown endpoint *)

(** C5: on a visualizer built on an existing canvas, after any earlier calls,
    [drawWaitForGraph] returns normally and paints, over the background, one
    arrow for each edge whose [from] and [to] both occur among the nodes, in
    the order of the edges and between the positions of the two nodes, and
    then every node; an edge with an endpoint that is not a node adds
    nothing.  This holds for both renderers. *)
Theorem unknown_endpoint_edges_are_skipped (document : Document)
  (dpr : number) (id : string) (el : Element) (history : list Call)
  (d : GraphSnapshot) :
  document id = Some el ->
  let nodes := default [] (nodes d) in
  let edges := default [] (edges d) in
  let cv := element_canvas el in
  let sh := shadow (element_context el) in
  (exists pos : string -> R * R,
     renders LightRun.call
       (LightRun.run history (Light.constructor document id))
       (CallWFG (Some d))
       (LightSpec.backgroundPaints sh cv
        ++ flat_map
             (fun e => LightSpec.arrowPaints sh (pos (from e)) (pos (to e)))
             (filter (known nodes) edges)
        ++ flat_map
             (fun n => LightSpec.nodePaints sh n Light.nodeColor (pos n))
             nodes))
  /\ (exists pos : string -> R * R,
     renders DarkRun.call
       (DarkRun.run history (Dark.constructor document dpr id))
       (CallWFG (Some d))
       (DarkSpec.backgroundPaints cv
        ++ flat_map
             (fun e => DarkSpec.arrowPaints (pos (from e)) (pos (to e)))
             (filter (known nodes) edges)
        ++ flat_map
             (fun n => DarkSpec.nodePaints n (DarkSpec.wfgColor d n) (pos n))
             nodes)).
Proof.
  intros Hel. cbv zeta. split.
  - eexists.
    pose proof (light_renders document id el history (CallWFG (Some d)) Hel
                  eq_refl) as H.
    unfold LightSpec.output in H. rewrite light_wfg_shape in H. exact H.
  - eexists.
    pose proof (dark_renders document dpr id el history (CallWFG (Some d)) Hel)
      as H.
    unfold DarkSpec.output in H. rewrite dark_wfg_shape in H. exact H.
Qed.

(** The example of the specification: nodes A and B, one edge from A to the
    unknown X; A and B are drawn and no arrow is. *)
Lemma unknown_endpoint_edges_are_skipped_witness :
  page 300 150 "wfgCanvas" = Some (new_canvas 300 150)
  /\ exists pos : string -> R * R,
       renders LightRun.call (Light.constructor (page 300 150) "wfgCanvas")
         (CallWFG (Some {| nodes := Some ["A"; "B"];
                           edges := Some [ {| from := "A"; to := "X" |} ];
                           deadlockedNodes := None |}))
         (LightSpec.backgroundPaints None (element_canvas (new_canvas 300 150))
          ++ LightSpec.nodePaints None "A" Light.nodeColor (pos "A")
          ++ LightSpec.nodePaints None "B" Light.nodeColor (pos "B")).
Proof.
  split; [reflexivity|].
  destruct (unknown_endpoint_edges_are_skipped (page 300 150) 1 "wfgCanvas"
              (new_canvas 300 150) []
              {| nodes := Some ["A"; "B"];
                 edges := Some [ {| from := "A"; to := "X" |} ];
                 deadlockedNodes := None |} eq_refl) as [[pos H] _].
  exists pos. exact H.
Defined.

(** ** Deadlocked nodes *)

Lemma wfgColor_spec (d : GraphSnapshot) (n : string) :
  DarkSpec.wfgColor d n
  = if bool_decide (n ∈ default [] (deadlockedNodes d))
    then Dark.alertColor else Dark.nodeColor.
Proof.
  unfold DarkSpec.wfgColor, Dark.isDeadlocked.
  destruct (deadlockedNodes d) as [l|]; [done|].
  by destruct (bool_decide_reflect (n ∈ default [] None)) as [H%elem_of_nil|].
Qed.

(** C1, as it fails: the original renderer draws the nodes P1 and P2 in its
    one node colour although both are listed in [deadlockedNodes], and the
    call gives the very result it gives when [deadlockedNodes] is absent. *)
Lemma light_ignores_deadlockedNodes :
  let this := Light.constructor (page 300 150) "wfgCanvas" in
  let d := fun dl =>
    {| nodes := Some ["P1"; "P2"];
       edges := Some [ {| from := "P1"; to := "P2" |};
                       {| from := "P2"; to := "P1" |} ];
       deadlockedNodes := dl |} in
  Light.drawWaitForGraph this (Some (d (Some ["P1"; "P2"])))
  = Light.drawWaitForGraph this (Some (d None))
  /\ exists (pos : string -> R * R) (arrows : list Paint),
       renders LightRun.call this (CallWFG (Some (d (Some ["P1"; "P2"]))))
         (LightSpec.backgroundPaints None (element_canvas (new_canvas 300 150))
          ++ arrows
          ++ LightSpec.nodePaints None "P1" Light.nodeColor (pos "P1")
          ++ LightSpec.nodePaints None "P2" Light.nodeColor (pos "P2")).
Proof.
  cbv zeta. split; [reflexivity|].
  pose proof (light_renders (page 300 150) "wfgCanvas" (new_canvas 300 150) []
                (CallWFG (Some {| nodes := Some ["P1"; "P2"];
                                  edges := Some [ {| from := "P1"; to := "P2" |};
                                                  {| from := "P2"; to := "P1" |} ];
                                  deadlockedNodes := Some ["P1"; "P2"] |}))
                eq_refl eq_refl) as H.
  unfold LightSpec.output in H. rewrite light_wfg_shape in H.
  do 2 eexists. exact H.
Qed.

(** C1, amended: the dark-mode renderer draws every node whose name is in
    [deadlockedNodes] in its alert colour and every other node, or every node
    when [deadlockedNodes] is absent, in its default node colour, which is a
    different one; the original renderer draws every node in its one node
    colour. *)
Theorem deadlocked_nodes_highlighted_in_dark_mode (document : Document)
  (dpr : number) (id : string) (el : Element) (history : list Call)
  (d : GraphSnapshot) :
  document id = Some el ->
  let nodes := default [] (nodes d) in
  let deadlocked := default [] (deadlockedNodes d) in
  let cv := element_canvas el in
  let sh := shadow (element_context el) in
  Dark.alertColor <> Dark.nodeColor
  /\ (exists (pos : string -> R * R) (arrows : list Paint),
        renders DarkRun.call
          (DarkRun.run history (Dark.constructor document dpr id))
          (CallWFG (Some d))
          (DarkSpec.backgroundPaints cv ++ arrows
           ++ flat_map
                (fun n =>
                   DarkSpec.nodePaints n
                     (if bool_decide (n ∈ deadlocked) then Dark.alertColor
                      else Dark.nodeColor)
                     (pos n))
                nodes))
  /\ (exists (pos : string -> R * R) (arrows : list Paint),
        renders LightRun.call
          (LightRun.run history (Light.constructor document id))
          (CallWFG (Some d))
          (LightSpec.backgroundPaints sh cv ++ arrows
           ++ flat_map
                (fun n => LightSpec.nodePaints sh n Light.nodeColor (pos n))
                nodes)).
Proof.
  intros Hel. cbv zeta. split; [done|]. split.
  - pose proof (dark_renders document dpr id el history (CallWFG (Some d)) Hel)
      as H.
    unfold DarkSpec.output in H. rewrite dark_wfg_shape in H.
    do 2 eexists.
    erewrite (flat_map_ext_in (fun n => DarkSpec.nodePaints n _ _));
      [exact H|].
    intros n _. cbv beta. by rewrite wfgColor_spec.
  - pose proof (light_renders document id el history (CallWFG (Some d)) Hel
                  eq_refl) as H.
    unfold LightSpec.output in H. rewrite light_wfg_shape in H.
    do 2 eexists. exact H.
Qed.

(** Three nodes of which P1 and P2 are deadlocked. *)
Lemma deadlocked_nodes_highlighted_in_dark_mode_witness :
  page 300 150 "wfgCanvas" = Some (new_canvas 300 150)
  /\ exists (pos : string -> R * R) (arrows : list Paint),
       renders DarkRun.call (Dark.constructor (page 300 150) 1 "wfgCanvas")
         (CallWFG (Some {| nodes := Some ["P1"; "P2"; "P3"];
                           edges := Some [ {| from := "P1"; to := "P2" |};
                                           {| from := "P2"; to := "P1" |} ];
                           deadlockedNodes := Some ["P1"; "P2"] |}))
         (DarkSpec.backgroundPaints (element_canvas (new_canvas 300 150))
          ++ arrows
          ++ DarkSpec.nodePaints "P1" Dark.alertColor (pos "P1")
          ++ DarkSpec.nodePaints "P2" Dark.alertColor (pos "P2")
          ++ DarkSpec.nodePaints "P3" Dark.nodeColor (pos "P3")).
Proof.
  split; [reflexivity|].
  destruct (deadlocked_nodes_highlighted_in_dark_mode (page 300 150) 1
              "wfgCanvas" (new_canvas 300 150) []
              {| nodes := Some ["P1"; "P2"; "P3"];
                 edges := Some [ {| from := "P1"; to := "P2" |};
                                 {| from := "P2"; to := "P1" |} ];
                 deadlockedNodes := Some ["P1"; "P2"] |} eq_refl)
    as (_ & (pos & arrows & H) & _).
  exists pos, arrows. exact H.
Defined.

(** ** Empty sequences *)

Lemma light_wfg_empty (sh : Shadow) (cv : Canvas) (d : GraphSnapshot) :
  default [] (nodes d) = [] -> LightSpec.wfgPaints sh cv d = [].
Proof.
  intros H. unfold LightSpec.wfgPaints. rewrite H. simpl.
  rewrite app_nil_r. by apply flat_map_nil.
Qed.

Lemma dark_wfg_empty (rect : Canvas) (d : GraphSnapshot) :
  default [] (nodes d) = [] -> DarkSpec.wfgPaints rect d = [].
Proof.
  intros H. unfold DarkSpec.wfgPaints. rewrite H. simpl.
  rewrite app_nil_r. by apply flat_map_nil.
Qed.

(** C8: for an empty node sequence the layout is the empty mapping, and for an
    empty node or state sequence each render of each renderer returns
    normally having painted the cleared background and nothing else, whatever
    the edges are.  The division by the sequence length is never evaluated to
    a stored value: every position the layout stores, for any sequence, has
    finite coordinates. *)
Theorem empty_sequence_paints_background_only (document : Document)
  (dpr : number) (id : string) (el : Element) (history : list Call)
  (ns : option (list string)) (es : option (list Edge))
  (dl : option (list string)) (s : States) (currentState : option string) :
  document id = Some el ->
  default [] ns = [] ->
  stateList s = [] ->
  let d := {| nodes := ns; edges := es; deadlockedNodes := dl |} in
  let cv := element_canvas el in
  let sh := shadow (element_context el) in
  let light := LightRun.run history (Light.constructor document id) in
  let dark := DarkRun.run history (Dark.constructor document dpr id) in
  (forall cx cy r : number, layout cx cy r (default [] ns) = ∅)
  /\ (forall (cx cy r : R) (l : list string) (n : string) (p : Pos.t),
        layout cx cy r l !! n = Some p -> exists q, p = point_of q)
  /\ renders LightRun.call light (CallWFG (Some d))
       (LightSpec.backgroundPaints sh cv)
  /\ renders LightRun.call light (CallFSA (Some s) currentState)
       (LightSpec.backgroundPaints sh cv)
  /\ renders DarkRun.call dark (CallWFG (Some d))
       (DarkSpec.backgroundPaints cv)
  /\ renders DarkRun.call dark (CallFSA (Some s) currentState)
       (DarkSpec.backgroundPaints cv).
Proof.
  intros Hel Hns Hs. cbv zeta.
  split; [by intros; rewrite Hns|].
  split.
  { intros cx cy r l n p H. rewrite layout_lookup in H.
    apply fmap_Some in H as (q & _ & ->). by exists q. }
  split; [|split; [|split]].
  - pose proof (light_renders document id el history
                  (CallWFG (Some {| nodes := ns; edges := es;
                                    deadlockedNodes := dl |})) Hel eq_refl)
      as H.
    unfold LightSpec.output in H.
    by rewrite light_wfg_empty, app_nil_r in H.
  - pose proof (light_renders document id el history
                  (CallFSA (Some s) currentState) Hel eq_refl) as H.
    unfold LightSpec.output, LightSpec.fsaPaints in H.
    by rewrite Hs, app_nil_r in H.
  - pose proof (dark_renders document dpr id el history
                  (CallWFG (Some {| nodes := ns; edges := es;
                                    deadlockedNodes := dl |})) Hel) as H.
    unfold DarkSpec.output in H.
    by rewrite dark_wfg_empty, app_nil_r in H.
  - pose proof (dark_renders document dpr id el history
                  (CallFSA (Some s) currentState) Hel) as H.
    unfold DarkSpec.output, DarkSpec.fsaPaints in H.
    by rewrite Hs, app_nil_r in H.
Qed.

(** No nodes and one edge between names that are not nodes, the second one
    inherited from [Object.prototype]; and an empty state object. *)
Lemma empty_sequence_paints_background_only_witness :
  page 300 150 "fsaCanvas" = Some (new_canvas 300 150)
  /\ default [] (Some []) = ([] : list string)
  /\ stateList (StObject []) = []
  /\ renders LightRun.call (Light.constructor (page 300 150) "fsaCanvas")
       (CallWFG (Some {| nodes := Some [];
                         edges := Some [ {| from := "A"; to := "toString" |} ];
                         deadlockedNodes := None |}))
       [ ClearRect 0 0 300 150; FillRect 0 0 300 150 Light.background None ]
  /\ renders DarkRun.call (Dark.constructor (page 300 150) 1 "fsaCanvas")
       (CallFSA (Some (StObject [])) (Some "RUNNING"))
       [ ClearRect 0 0 300 150; FillRect 0 0 300 150 Dark.background None ].
Proof.
  split; [reflexivity|]. split; [reflexivity|]. split; [reflexivity|].
  destruct (empty_sequence_paints_background_only (page 300 150) 1 "fsaCanvas"
              (new_canvas 300 150) [] (Some [])
              (Some [ {| from := "A"; to := "toString" |} ]) None
              (StObject []) (Some "RUNNING") eq_refl eq_refl eq_refl)
    as (_ & _ & H1 & _ & _ & H2).
  split; [exact H1 | exact H2].
Defined.

(** ** The current state of the FSA diagram *)

Lemma filter_none {A} (P : A -> Prop) `{!forall x, Decision (P x)}
  (l : list A) :
  (forall x, x ∈ l -> ~ P x) -> filter P l = [].
Proof.
  induction l as [|x l IH]; intros Hl; [done|].
  rewrite filter_cons_False by (apply Hl; left).
  apply IH. intros y Hy. apply Hl. by right.
Qed.

Lemma filter_current_NoDup (l : list string) (c : string) :
  NoDup l -> c ∈ l -> filter (fun st => Some st = Some c) l = [c].
Proof.
  induction 1 as [|x l Hx Hnd IH]; intros Hc; [by apply elem_of_nil in Hc|].
  rewrite filter_cons. destruct (decide (Some x = Some c)) as [E|E].
  - injection E as ->. f_equal.
    apply filter_none. intros y Hy [= ->]. done.
  - apply elem_of_cons in Hc as [->|Hc]; [done | by apply IH].
Qed.

Lemma filter_current_absent (l : list string) (cur : option string) :
  (forall c, cur = Some c -> c ∉ l) -> filter (fun st => Some st = cur) l = [].
Proof.
  intros Hcur. apply filter_none.
  intros y Hy E. by apply (Hcur y).
Qed.

(** C6: on a visualizer built on an existing canvas, [drawFSADiagram] called
    with an array of states, or with an object whose keys are taken as the
    states, returns normally and paints, over the background, one node for
    each state in order, in the active colour when the state is strictly
    equal to [currentState] and in the neutral colour otherwise.  When the
    states are unique and [currentState] is one of them, the states drawn in
    the active colour are that one alone; when it is none of them, there is
    none.  This holds for both renderers. *)
Theorem fsa_marks_only_the_current_state (document : Document) (dpr : number)
  (id : string) (el : Element) (history : list Call) (s : States)
  (currentState : option string) :
  document id = Some el ->
  NoDup (stateList s) ->
  let ids := stateList s in
  let cv := element_canvas el in
  let sh := shadow (element_context el) in
  Light.activeColor <> Light.neutralColor
  /\ Dark.activeColor <> Dark.neutralColor
  /\ (exists pos : nat -> R * R,
        renders LightRun.call
          (LightRun.run history (Light.constructor document id))
          (CallFSA (Some s) currentState)
          (LightSpec.backgroundPaints sh cv
           ++ paints_from
                (fun st i =>
                   LightSpec.nodePaints sh st
                     (if bool_decide (Some st = currentState)
                      then Light.activeColor else Light.neutralColor)
                     (pos i))
                0 ids))
  /\ (exists pos : nat -> R * R,
        renders DarkRun.call
          (DarkRun.run history (Dark.constructor document dpr id))
          (CallFSA (Some s) currentState)
          (DarkSpec.backgroundPaints cv
           ++ paints_from
                (fun st i =>
                   DarkSpec.nodePaints st
                     (if bool_decide (Some st = currentState)
                      then Dark.activeColor else Dark.neutralColor)
                     (pos i))
                0 ids))
  /\ (forall c, currentState = Some c -> c ∈ ids ->
        filter (fun st => Some st = currentState) ids = [c])
  /\ ((forall c, currentState = Some c -> c ∉ ids) ->
        filter (fun st => Some st = currentState) ids = []).
Proof.
  intros Hel Hnd. cbv zeta.
  split; [done|]. split; [done|]. split; [|split; [|split]].
  - eexists (fun i => circle_point _ _ _ i _).
    exact (light_renders document id el history
             (CallFSA (Some s) currentState) Hel eq_refl).
  - eexists (fun i => circle_point _ _ _ i _).
    exact (dark_renders document dpr id el history
             (CallFSA (Some s) currentState) Hel).
  - intros c -> Hc. by apply filter_current_NoDup.
  - apply filter_current_absent.
Qed.

(** The five process states, with RUNNING and with UNKNOWN as the current
    state. *)
Lemma fsa_marks_only_the_current_state_witness :
  page 300 150 "fsaCanvas" = Some (new_canvas 300 150)
  /\ NoDup (stateList (StArray ["NEW"; "READY"; "RUNNING"; "BLOCKED";
                                "TERMINATED"]))
  /\ filter (fun st => Some st = Some "RUNNING")
       ["NEW"; "READY"; "RUNNING"; "BLOCKED"; "TERMINATED"] = ["RUNNING"]
  /\ filter (fun st => Some st = Some "UNKNOWN")
       ["NEW"; "READY"; "RUNNING"; "BLOCKED"; "TERMINATED"] = [].
Proof.
  assert (Hnd : NoDup (stateList (StArray ["NEW"; "READY"; "RUNNING";
                                           "BLOCKED"; "TERMINATED"])))
    by (apply (bool_decide_unpack _); vm_compute; exact I).
  split; [reflexivity|]. split; [exact Hnd|]. split.
  - destruct (fsa_marks_only_the_current_state (page 300 150) 1 "fsaCanvas"
                (new_canvas 300 150) []
                (StArray ["NEW"; "READY"; "RUNNING"; "BLOCKED"; "TERMINATED"])
                (Some "RUNNING") eq_refl Hnd) as (_ & _ & _ & _ & H & _).
    apply (H "RUNNING" eq_refl).
    apply (bool_decide_unpack _). vm_compute. exact I.
  - reflexivity.
Defined.

(** ** Positions on the circle *)

Lemma circle_point_single (cx cy r : R) :
  circle_point cx cy r 0 1 = (cx + r, cy).
Proof.
  unfold circle_point.
  replace (2 * PI * INR 0 / INR 1) with 0
    by (change (INR 0) with 0; change (INR 1) with 1; lra).
  rewrite cos_0, sin_0. f_equal; lra.
Qed.

Lemma light_wfg_unique (document : Document) (id : string) (el : Element)
  (history : list Call) (d : GraphSnapshot) :
  document id = Some el ->
  NoDup (default [] (nodes d)) ->
  let nodes := default [] (nodes d) in
  let cv := element_canvas el in
  let sh := shadow (element_context el) in
  let pos := position (width cv / 2) (height cv / 2)
               (Rmin (width cv / 2) (height cv / 2) - 50) nodes in
    renders LightRun.call
      (LightRun.run history (Light.constructor document id))
      (CallWFG (Some d))
      (LightSpec.backgroundPaints sh cv
       ++ flat_map
            (fun e => LightSpec.arrowPaints sh (pos (from e)) (pos (to e)))
            (filter (known nodes) (default [] (edges d)))
       ++ paints_from
            (fun name i =>
               LightSpec.nodePaints sh name Light.nodeColor
                 (circle_point (width cv / 2) (height cv / 2)
                    (Rmin (width cv / 2) (height cv / 2) - 50) i
                    (length nodes)))
            0 nodes).
Proof.
  intros Hel Hnd. cbv zeta.
  pose proof (light_renders document id el history (CallWFG (Some d)) Hel
                eq_refl) as H.
  unfold LightSpec.output in H. rewrite light_wfg_shape in H. cbv zeta in H.
  rewrite (nodes_shape_NoDup
             (fun n => LightSpec.nodePaints _ n Light.nodeColor)) in H
    by exact Hnd.
  exact H.
Qed.

Lemma dark_wfg_unique (document : Document) (dpr : number) (id : string)
  (el : Element) (history : list Call) (d : GraphSnapshot) :
  document id = Some el ->
  NoDup (default [] (nodes d)) ->
  let nodes := default [] (nodes d) in
  let cv := element_canvas el in
  let pos := position (rect_width cv / 2) (rect_height cv / 2)
               (Rmin (rect_width cv / 2) (rect_height cv / 2) - 60) nodes in
    renders DarkRun.call
      (DarkRun.run history (Dark.constructor document dpr id))
      (CallWFG (Some d))
      (DarkSpec.backgroundPaints cv
       ++ flat_map
            (fun e => DarkSpec.arrowPaints (pos (from e)) (pos (to e)))
            (filter (known nodes) (default [] (edges d)))
       ++ paints_from
            (fun name i =>
               DarkSpec.nodePaints name (DarkSpec.wfgColor d name)
                 (circle_point (rect_width cv / 2) (rect_height cv / 2)
                    (Rmin (rect_width cv / 2) (rect_height cv / 2) - 60) i
                    (length nodes)))
            0 nodes).
Proof.
  intros Hel Hnd. cbv zeta.
  pose proof (dark_renders document dpr id el history (CallWFG (Some d)) Hel)
    as H.
  unfold DarkSpec.output in H. rewrite dark_wfg_shape in H. cbv zeta in H.
  rewrite (nodes_shape_NoDup
             (fun n => DarkSpec.nodePaints n (DarkSpec.wfgColor d n))) in H
    by exact Hnd.
  exact H.
Qed.

(** C3, as it fails: on a canvas of 100 by 100 the original renderer computes
    the radius min(50, 50) - 50 = 0 and draws the single node A at the
    centre (50, 50) of the surface itself. *)
Lemma single_node_drawn_at_the_center :
  renders LightRun.call (Light.constructor (page 100 100) "wfgCanvas")
    (CallWFG (Some {| nodes := Some ["A"]; edges := None;
                      deadlockedNodes := None |}))
    (LightSpec.backgroundPaints None (element_canvas (new_canvas 100 100))
     ++ LightSpec.nodePaints None "A" Light.nodeColor (100 / 2, 100 / 2)).
Proof.
  assert (Hnd : NoDup ["A"]) by (apply (bool_decide_unpack _); vm_compute; exact I).
  pose proof (light_wfg_unique (page 100 100) "wfgCanvas" (new_canvas 100 100)
                [] {| nodes := Some ["A"]; edges := None;
                      deadlockedNodes := None |} eq_refl Hnd) as H.
  cbn [default from_option Datatypes.id nodes edges paints_from length
       filter list_filter flat_map app element_canvas new_canvas width height]
    in H.
  rewrite circle_point_single, app_nil_r in H.
  replace (100 / 2 + (Rmin (100 / 2) (100 / 2) - 50)) with (100 / 2) in H
    by (unfold Rmin; destruct (Rle_dec (100 / 2) (100 / 2)); lra).
  exact H.
Qed.

(** C3, amended: when the node names are unique, both renderers draw the node
    of index [i] of [n] at the point
    (w/2 + r cos(2 pi i / n), h/2 + r sin(2 pi i / n)), where
    r = min(w/2, h/2) - margin, [w] and [h] being the width and height of the
    canvas and the margin 50 in the original renderer, and those of its
    bounding rectangle and 60 in the dark-mode one.  A single node is thus
    drawn at (w/2 + r, h/2), at angle 0; this is not the centre exactly when
    r is not 0. *)
Theorem nodes_are_placed_on_the_circle (document : Document) (dpr : number)
  (id : string) (el : Element) (history : list Call) (d : GraphSnapshot) :
  document id = Some el ->
  NoDup (default [] (nodes d)) ->
  let nodes := default [] (nodes d) in
  let edges := default [] (edges d) in
  let n := length nodes in
  let cv := element_canvas el in
  let sh := shadow (element_context el) in
  let rL := Rmin (width cv / 2) (height cv / 2) - 50 in
  let rD := Rmin (rect_width cv / 2) (rect_height cv / 2) - 60 in
  let posL := position (width cv / 2) (height cv / 2) rL nodes in
  let posD := position (rect_width cv / 2) (rect_height cv / 2) rD nodes in
  renders LightRun.call
    (LightRun.run history (Light.constructor document id))
    (CallWFG (Some d))
    (LightSpec.backgroundPaints sh cv
     ++ flat_map
          (fun e => LightSpec.arrowPaints sh (posL (from e)) (posL (to e)))
          (filter (known nodes) edges)
     ++ paints_from
          (fun name i =>
             LightSpec.nodePaints sh name Light.nodeColor
               (width cv / 2 + rL * cos (2 * PI * INR i / INR n),
                height cv / 2 + rL * sin (2 * PI * INR i / INR n)))
          0 nodes)
  /\ renders DarkRun.call
       (DarkRun.run history (Dark.constructor document dpr id))
       (CallWFG (Some d))
       (DarkSpec.backgroundPaints cv
        ++ flat_map
             (fun e => DarkSpec.arrowPaints (posD (from e)) (posD (to e)))
             (filter (known nodes) edges)
        ++ paints_from
             (fun name i =>
                DarkSpec.nodePaints name (DarkSpec.wfgColor d name)
                  (rect_width cv / 2 + rD * cos (2 * PI * INR i / INR n),
                   rect_height cv / 2 + rD * sin (2 * PI * INR i / INR n)))
             0 nodes)
  /\ (forall i name, nodes !! i = Some name ->
        posL name = (width cv / 2 + rL * cos (2 * PI * INR i / INR n),
                     height cv / 2 + rL * sin (2 * PI * INR i / INR n))
        /\ posD name
           = (rect_width cv / 2 + rD * cos (2 * PI * INR i / INR n),
              rect_height cv / 2 + rD * sin (2 * PI * INR i / INR n)))
  /\ (forall name, nodes = [name] ->
        posL name = (width cv / 2 + rL, height cv / 2)
        /\ posD name = (rect_width cv / 2 + rD, rect_height cv / 2)
        /\ (posL name <> (width cv / 2, height cv / 2) <-> rL <> 0)
        /\ (posD name <> (rect_width cv / 2, rect_height cv / 2) <-> rD <> 0)).
Proof.
  intros Hel Hnd. cbv zeta.
  split; [exact (light_wfg_unique document id el history d Hel Hnd)|].
  split; [exact (dark_wfg_unique document dpr id el history d Hel Hnd)|].
  split.
  - intros i name Hi. unfold position.
    by rewrite !(node_point_NoDup _ _ _ _ i name Hnd Hi).
  - intros name Hname. unfold position.
    rewrite !(node_point_NoDup _ _ _ _ 0 name Hnd) by (by rewrite Hname).
    rewrite Hname. cbn [length default from_option Datatypes.id].
    rewrite !circle_point_single.
    split; [done|]. split; [done|].
    split; (split; [intros H E; apply H; f_equal; lra
                   | intros H [= E]; apply H; lra]).
Qed.

(** The second of three nodes on the default canvas of 300 by 150. *)
Lemma nodes_are_placed_on_the_circle_witness :
  page 300 150 "wfgCanvas" = Some (new_canvas 300 150)
  /\ NoDup (default [] (Some ["P1"; "P2"; "P3"]))
  /\ position (300 / 2) (150 / 2) (Rmin (300 / 2) (150 / 2) - 50)
       ["P1"; "P2"; "P3"] "P2"
     = (300 / 2 + (Rmin (300 / 2) (150 / 2) - 50)
                  * cos (2 * PI * INR 1 / INR 3),
        150 / 2 + (Rmin (300 / 2) (150 / 2) - 50)
                  * sin (2 * PI * INR 1 / INR 3)).
Proof.
  assert (Hnd : NoDup (default [] (Some ["P1"; "P2"; "P3"])))
    by (apply (bool_decide_unpack _); vm_compute; exact I).
  split; [reflexivity|]. split; [exact Hnd|].
  destruct (nodes_are_placed_on_the_circle (page 300 150) 1 "wfgCanvas"
              (new_canvas 300 150) []
              {| nodes := Some ["P1"; "P2"; "P3"]; edges := None;
                 deadlockedNodes := None |} eq_refl Hnd)
    as (_ & _ & H & _).
  exact (proj1 (H 1%nat "P2" eq_refl)).
Defined.

(** ** The layout radius *)

(** C4, as it fails: on a canvas of 60 by 60 the original renderer computes
    the radius min(30, 30) - 50 = -20, which is negative, and draws the
    single node A at (30 - 20, 30); with a radius clamped to 0 it would be
    drawn at (30, 30). *)
Lemma radius_is_negative_on_a_small_canvas :
  Rmin (60 / 2) (60 / 2) - Light.margin = -20
  /\ renders LightRun.call (Light.constructor (page 60 60) "wfgCanvas")
       (CallWFG (Some {| nodes := Some ["A"]; edges := None;
                         deadlockedNodes := None |}))
       (LightSpec.backgroundPaints None (element_canvas (new_canvas 60 60))
        ++ LightSpec.nodePaints None "A" Light.nodeColor (60 / 2 - 20, 60 / 2)).
Proof.
  assert (Hr : Rmin (60 / 2) (60 / 2) - 50 = -20)
    by (unfold Rmin; destruct (Rle_dec (60 / 2) (60 / 2)); lra).
  split; [exact Hr|].
  assert (Hnd : NoDup ["A"])
    by (apply (bool_decide_unpack _); vm_compute; exact I).
  pose proof (light_wfg_unique (page 60 60) "wfgCanvas" (new_canvas 60 60)
                [] {| nodes := Some ["A"]; edges := None;
                      deadlockedNodes := None |} eq_refl Hnd) as H.
  cbn [default from_option Datatypes.id nodes edges paints_from length
       filter list_filter flat_map app element_canvas new_canvas width height]
    in H.
  rewrite circle_point_single, app_nil_r, Hr in H.
  replace (60 / 2 + -20) with (60 / 2 - 20) in H by lra.
  exact H.
Qed.

(** C4, amended: in both renderers the layout radius is
    min(w/2, h/2) - margin as it stands, with margin 50 in the original
    renderer and 60 in the dark-mode one, and is not clamped: every node is
    drawn, and every arrow is laid, at points of the circle of that radius,
    and the radius is negative whenever the smaller half-dimension is less
    than the margin. *)
Theorem layout_radius_is_not_clamped (document : Document) (dpr : number)
  (id : string) (el : Element) (history : list Call) (d : GraphSnapshot) :
  document id = Some el ->
  let nodes := default [] (nodes d) in
  let edges := default [] (edges d) in
  let cv := element_canvas el in
  let sh := shadow (element_context el) in
  let rL := Rmin (width cv / 2) (height cv / 2) - Light.margin in
  let rD := Rmin (rect_width cv / 2) (rect_height cv / 2) - Dark.margin in
  let posL := position (width cv / 2) (height cv / 2) rL nodes in
  let posD := position (rect_width cv / 2) (rect_height cv / 2) rD nodes in
  Light.margin = 50 /\ Dark.margin = 60
  /\ (Rmin (width cv / 2) (height cv / 2) < Light.margin -> rL < 0)
  /\ (Rmin (rect_width cv / 2) (rect_height cv / 2) < Dark.margin -> rD < 0)
  /\ renders LightRun.call
       (LightRun.run history (Light.constructor document id))
       (CallWFG (Some d))
       (LightSpec.backgroundPaints sh cv
        ++ flat_map
             (fun e => LightSpec.arrowPaints sh (posL (from e)) (posL (to e)))
             (filter (known nodes) edges)
        ++ flat_map
             (fun name => LightSpec.nodePaints sh name Light.nodeColor
                            (posL name))
             nodes)
  /\ renders DarkRun.call
       (DarkRun.run history (Dark.constructor document dpr id))
       (CallWFG (Some d))
       (DarkSpec.backgroundPaints cv
        ++ flat_map
             (fun e => DarkSpec.arrowPaints (posD (from e)) (posD (to e)))
             (filter (known nodes) edges)
        ++ flat_map
             (fun name => DarkSpec.nodePaints name (DarkSpec.wfgColor d name)
                            (posD name))
             nodes)
  /\ (forall name, name ∈ nodes ->
        exists j, nodes !! j = Some name
          /\ posL name
             = (width cv / 2 + rL * cos (2 * PI * INR j / INR (length nodes)),
                height cv / 2 + rL * sin (2 * PI * INR j / INR (length nodes)))
          /\ posD name
             = (rect_width cv / 2
                + rD * cos (2 * PI * INR j / INR (length nodes)),
                rect_height cv / 2
                + rD * sin (2 * PI * INR j / INR (length nodes)))).
Proof.
  intros Hel. cbv zeta.
  split; [done|]. split; [done|].
  split; [intros; lra|]. split; [intros; lra|].
  split; [|split].
  - pose proof (light_renders document id el history (CallWFG (Some d)) Hel
                  eq_refl) as H.
    unfold LightSpec.output in H. rewrite light_wfg_shape in H. exact H.
  - pose proof (dark_renders document dpr id el history (CallWFG (Some d)) Hel)
      as H.
    unfold DarkSpec.output in H. rewrite dark_wfg_shape in H. exact H.
  - intros name Hname. unfold position, node_point, last_index.
    destruct (last_index_from 0 name (default [] (nodes d))) as [j|] eqn:E.
    + exists j. apply last_index_from_Some in E as [_ E].
      rewrite Nat.sub_0_r in E. done.
    + by apply last_index_from_None in E.
Qed.

(** A canvas of 60 by 60: both radii are negative. *)
Lemma layout_radius_is_not_clamped_witness :
  page 60 60 "wfgCanvas" = Some (new_canvas 60 60)
  /\ Rmin (60 / 2) (60 / 2) - Light.margin < 0
  /\ Rmin (60 / 2) (60 / 2) - Dark.margin < 0.
Proof.
  split; [reflexivity|].
  destruct (layout_radius_is_not_clamped (page 60 60) 1 "wfgCanvas"
              (new_canvas 60 60) []
              {| nodes := Some ["A"]; edges := None; deadlockedNodes := None |}
              eq_refl) as (_ & _ & HL & HD & _).
  assert (Hm : Rmin (60 / 2) (60 / 2) = 60 / 2)
    by (unfold Rmin; destruct (Rle_dec (60 / 2) (60 / 2)); lra).
  split; [apply HL | apply HD]; cbn [element_canvas new_canvas width height
    rect_width rect_height]; rewrite Hm; unfold Light.margin, Dark.margin; lra.
Defined.

(** ** Arrow geometry *)

Lemma polar_reversed (p : R * R) (d a : R) :
  polar p d (a + PI) = (fst p - d * cos a, snd p - d * sin a).
Proof.
  unfold polar. rewrite neg_cos, neg_sin. f_equal; ring.
Qed.

Lemma polar_reversed_minus (p : R * R) (d a b : R) :
  polar p d (a + PI - b) = (fst p - d * cos (a - b), snd p - d * sin (a - b)).
Proof.
  replace (a + PI - b) with (a - b + PI) by ring. apply polar_reversed.
Qed.

Lemma polar_reversed_plus (p : R * R) (d a b : R) :
  polar p d (a + PI + b) = (fst p - d * cos (a + b), snd p - d * sin (a + b)).
Proof.
  replace (a + PI + b) with (a + b + PI) by ring. apply polar_reversed.
Qed.

Lemma polar_dist2 (p : R * R) (d a : R) : dist2 p (polar p d a) = d * d.
Proof.
  unfold dist2, polar. cbn [fst snd].
  replace ((fst p + d * cos a - fst p) * (fst p + d * cos a - fst p)
           + (snd p + d * sin a - snd p) * (snd p + d * sin a - snd p))
    with (d * d * ((sin a)² + (cos a)²)) by (unfold Rsqr; ring).
  rewrite sin2_cos2. ring.
Qed.

Lemma atan2_east (x : R) : 0 < x -> atan2 0 x = 0.
Proof.
  intros Hx. unfold atan2. destruct (Rlt_dec 0 x) as [_|H]; [|done].
  replace (0 / x) with 0 by (field; lra). apply atan_0.
Qed.

(** C7, as it fails: in the dark-mode renderer the arrow between the centres
    (0, 0) and (100, 0) is drawn from (30, 0) to (70, 0), 30 away from each
    centre, while a node at (0, 0) is the circle of radius 28: the segment
    is not pulled in by the node radius. *)
Lemma dark_arrow_inset_is_not_the_node_radius :
  (exists (c' : Context2D) (head : Paint),
      Dark.drawArrow 0 0 100 0 (Some Dark.arrowColor)
        (set_lineWidth 2 default_context)
      = (c', Normal)
      /\ painted c'
         = [ StrokePath [MoveTo 30 0; LineTo 70 0] Dark.arrowColor 2 None;
             head ])
  /\ (exists (c' : Context2D) (outline label : Paint),
        Dark.drawNode 0 0 "P1" Dark.nodeColor default_context = (c', Normal)
        /\ painted c'
           = [ FillPath [Arc 0 0 28 0 (2 * PI)] "#1e293b"
                        (Some (15%Z, Dark.nodeColor));
               outline; label ])
  /\ 30 - 0 <> 28.
Proof.
  split; [|split; [|lra]].
  - destruct (DarkFacts.dark_drawArrow_fin (0, 0) (100, 0)
                (set_lineWidth 2 default_context)) as (c' & E & _ & P);
      [by split|].
    eexists c', _. split; [exact E|]. rewrite P.
    unfold DarkSpec.arrowPaints. cbn [fst snd painted set_lineWidth
      default_context app].
    replace (0 - 0) with 0 by lra. rewrite atan2_east by lra.
    rewrite cos_0, sin_0. unfold Dark.nodeRadius.
    do 3 f_equal; [f_equal; lra | do 2 f_equal; lra].
  - destruct (DarkFacts.dark_drawNode_fin (0, 0) "P1" Dark.nodeColor default_context)
      as (c' & E & _ & _ & P).
    eexists c', _, _. split; [exact E|]. rewrite P. reflexivity.
Qed.

(** C7, amended: for source centre (x1, y1) and destination centre (x2, y2),
    with a = atan2(y2 - y1, x2 - x1), [drawArrow] strokes the segment from
    the point at distance [nodeRadius] from the source in direction [a] to
    the point at distance [nodeRadius] from the destination in the reversed
    direction a + pi.  That inset is 25 in the original renderer, the radius
    its nodes are drawn with, and 30 in the dark-mode renderer, whose nodes
    are drawn with radius 28.  The head has its two other corners at distance
    [headLength] (15, and 12 in dark mode) from the adjusted destination
    point, in the directions a + pi - pi/6 and a + pi + pi/6; the original
    renderer strokes the two segments from the destination point to them,
    the dark-mode one fills the triangle. *)
Theorem arrow_is_inset_and_headed (x1 y1 x2 y2 : R) (color : option string)
  (c : Context2D) :
  let a := atan2 (y2 - y1) (x2 - x1) in
  let startL := polar (x1, y1) Light.nodeRadius a in
  let endL := polar (x2, y2) Light.nodeRadius (a + PI) in
  let leftL := polar endL Light.headLength (a + PI - PI / 6) in
  let rightL := polar endL Light.headLength (a + PI + PI / 6) in
  let startD := polar (x1, y1) Dark.nodeRadius a in
  let endD := polar (x2, y2) Dark.nodeRadius (a + PI) in
  let leftD := polar endD Dark.headLength (a + PI - PI / 6) in
  let rightD := polar endD Dark.headLength (a + PI + PI / 6) in
  (exists c', Light.drawArrow x1 y1 x2 y2 c = (c', Normal)
     /\ painted c'
        = painted c
          ++ [ StrokePath [ MoveTo (fst startL) (snd startL);
                            LineTo (fst endL) (snd endL) ]
                          (strokeStyle c) (lineWidth c) (shadow c);
               StrokePath [ MoveTo (fst endL) (snd endL);
                            LineTo (fst leftL) (snd leftL);
                            MoveTo (fst endL) (snd endL);
                            LineTo (fst rightL) (snd rightL) ]
                          (strokeStyle c) (lineWidth c) (shadow c) ])
  /\ (exists c', Dark.drawArrow x1 y1 x2 y2 color c = (c', Normal)
        /\ painted c'
           = painted c
             ++ [ StrokePath [ MoveTo (fst startD) (snd startD);
                               LineTo (fst endD) (snd endD) ]
                             (Dark.or_lineColor color) (lineWidth c) (shadow c);
                  FillPath [ MoveTo (fst endD) (snd endD);
                             LineTo (fst leftD) (snd leftD);
                             LineTo (fst rightD) (snd rightD);
                             ClosePath ]
                           (Dark.or_lineColor color) (shadow c) ])
  /\ dist2 (x1, y1) startL = Light.nodeRadius * Light.nodeRadius
  /\ dist2 (x2, y2) endL = Light.nodeRadius * Light.nodeRadius
  /\ dist2 endL leftL = Light.headLength * Light.headLength
  /\ dist2 endL rightL = Light.headLength * Light.headLength
  /\ dist2 (x1, y1) startD = Dark.nodeRadius * Dark.nodeRadius
  /\ dist2 (x2, y2) endD = Dark.nodeRadius * Dark.nodeRadius
  /\ dist2 endD leftD = Dark.headLength * Dark.headLength
  /\ dist2 endD rightD = Dark.headLength * Dark.headLength
  /\ Light.nodeRadius = 25 /\ Light.circleRadius = 25
  /\ Dark.nodeRadius = 30 /\ Dark.circleRadius = 28.
Proof.
  cbv zeta. split; [|split].
  - eexists. split; [reflexivity|].
    rewrite polar_reversed_minus, polar_reversed_plus, polar_reversed.
    unfold polar. cbn [fst snd]. simpl. rewrite INR_6.
    by rewrite <- app_assoc.
  - eexists. split; [reflexivity|].
    rewrite polar_reversed_minus, polar_reversed_plus, polar_reversed.
    unfold polar. cbn [fst snd]. simpl. rewrite INR_6.
    unfold shadow. simpl. by rewrite <- app_assoc.
  - rewrite !polar_dist2. done.
Qed.

(** * Further properties *)

(** ** The layout as a map *)

Lemma last_index_from_ge (id : string) (l : list string) :
  forall i k, l !! k = Some id ->
              exists j, last_index_from i id l = Some j /\ (i + k <= j)%nat.
Proof.
  induction l as [|x l IH]; intros i k Hk; [done|].
  simpl. destruct k as [|k]; simpl in Hk.
  - injection Hk as ->.
    destruct (last_index_from (S i) id l) as [j|] eqn:E.
    + exists j. split; [done|].
      apply last_index_from_Some in E as [Hle _]. lia.
    + exists i. rewrite decide_True by done. split; [done | lia].
  - destruct (IH (S i) k Hk) as (j & -> & Hle). exists j. split; [done | lia].
Qed.

(** X1: the names under which the layout loop stores a position are exactly
    the node names, whatever the centre and the radius are; a name that is
    not a node has no position of its own. *)
Theorem layout_keys_are_the_nodes (cx cy r : number) (nodes : list string)
  (id : string) :
  (is_Some (layout cx cy r nodes !! id) <-> id ∈ nodes)
  /\ dom (layout cx cy r nodes) = list_to_set nodes.
Proof.
  assert (H : forall n, is_Some (layout cx cy r nodes !! n) <-> n ∈ nodes).
  { intros n. unfold layout. rewrite layout_from_lookup.
    destruct (last_index_from 0 n nodes) as [j|] eqn:E.
    - split; [intros _ | by eauto].
      apply last_index_from_Some in E as [_ E].
      by apply list_elem_of_lookup_2 in E.
    - rewrite lookup_empty. apply last_index_from_None in E.
      split; [by intros [? ?] | done]. }
  split; [apply H|].
  apply set_eq. intros n. by rewrite elem_of_dom, H, elem_of_list_to_set.
Qed.

(** X2: when a name occurs several times among the nodes, the position kept
    for it is the one of its last occurrence: every node of that name, and
    every arrow to or from it, is drawn there. *)
Theorem layout_keeps_the_last_occurrence (cx cy r : number)
  (nodes : list string) (id : string) (j : nat) :
  nodes !! j = Some id ->
  (forall k, (j < k)%nat -> nodes !! k <> Some id) ->
  layout cx cy r nodes !! id
  = Some (on_circle cx cy r (angle_of j (length nodes)))
  /\ forall cx' cy' r' : R,
       position cx' cy' r' nodes id
       = circle_point cx' cy' r' j (length nodes).
Proof.
  intros Hj Hlast.
  assert (E : last_index id nodes = Some j).
  { unfold last_index.
    destruct (last_index_from_ge id nodes 0 j Hj) as (j' & E & Hle).
    rewrite E. f_equal.
    apply last_index_from_Some in E as [_ E'].
    rewrite Nat.sub_0_r in E'.
    destruct (decide (j < j')%nat) as [Hlt|]; [|lia].
    by destruct (Hlast j' Hlt). }
  split.
  - unfold layout. rewrite layout_from_lookup.
    unfold last_index in E. by rewrite E.
  - intros cx' cy' r'. unfold position, node_point. by rewrite E.
Qed.

(** The name A is the first and the third of three nodes. *)
Lemma layout_keeps_the_last_occurrence_witness :
  ["A"; "B"; "A"] !! 2%nat = Some "A"
  /\ position 150 75 25 ["A"; "B"; "A"] "A" = circle_point 150 75 25 2 3.
Proof.
  split; [reflexivity|].
  refine (proj2 (layout_keeps_the_last_occurrence 150 75 25 ["A"; "B"; "A"]
                   "A" 2 eq_refl _) 150 75 25).
  intros k Hk. destruct k as [|[|[|k]]]; try lia. by intros.
Defined.

(** ** Points of the layout *)

Lemma circle_point_polar (cx cy r : R) (i n : nat) :
  circle_point cx cy r i n = polar (cx, cy) r (2 * PI * INR i / INR n).
Proof. reflexivity. Qed.

(** X3: every position the layout stores is at distance |r| from the centre:
    the square of its distance to (cx, cy) is r * r, also for a radius that
    is negative. *)
Theorem layout_points_lie_on_the_circle (cx cy r : R) (nodes : list string)
  (id : string) (p : Pos.t) :
  layout cx cy r nodes !! id = Some p ->
  exists q : R * R, p = point_of q /\ dist2 (cx, cy) q = r * r.
Proof.
  rewrite layout_lookup. intros H.
  apply fmap_Some in H as (q & Hq & ->). exists q. split; [done|].
  unfold node_point in Hq. apply fmap_Some in Hq as (j & _ & ->).
  rewrite circle_point_polar. apply polar_dist2.
Qed.

(** The single node of a one-node graph on the default canvas. *)
Lemma layout_points_lie_on_the_circle_witness :
  layout 150 75 25 ["A"] !! "A" = Some (on_circle 150 75 25 (angle_of 0 1))
  /\ exists q : R * R,
       on_circle 150 75 25 (angle_of 0 1) = point_of q
       /\ dist2 (150, 75) q = 25 * 25.
Proof.
  assert (H : layout 150 75 25 ["A"] !! "A"
              = Some (on_circle 150 75 25 (angle_of 0 1)))
    by (unfold layout; simpl; apply lookup_insert_eq).
  split; [exact H|].
  exact (layout_points_lie_on_the_circle 150 75 25 ["A"] "A" _ H).
Defined.

Lemma cos_sin_inj (a b : R) :
  0 <= a < 2 * PI -> 0 <= b < 2 * PI ->
  cos a = cos b -> sin a = sin b -> a = b.
Proof.
  assert (Hle : forall x y, 0 <= y <= x -> x < 2 * PI ->
                            cos x = cos y -> sin x = sin y -> x = y).
  { intros x y Hy Hx Hc Hs.
    assert (H1 : cos (x - y) = 1).
    { rewrite cos_minus, Hc, Hs.
      pose proof (sin2_cos2 y) as H. unfold Rsqr in H. lra. }
    assert (H0 : sin ((x - y) / 2) = 0).
    { replace (x - y) with (2 * ((x - y) / 2)) in H1 by lra.
      rewrite cos_2a_sin in H1.
      assert (Hsq : sin ((x - y) / 2) * sin ((x - y) / 2) = 0) by lra.
      apply Rmult_integral in Hsq. tauto. }
    pose proof PI_RGT_0 as Hpi.
    apply sin_eq_O_2PI_0 in H0; lra. }
  intros Ha Hb Hc Hs.
  destruct (Rle_dec b a) as [Hba|Hba].
  - apply Hle; lra.
  - symmetry. apply Hle; try lra; done.
Qed.

Lemma circle_point_inj (cx cy r : R) (i j n : nat) :
  r <> 0 -> (i < n)%nat -> (j < n)%nat ->
  circle_point cx cy r i n = circle_point cx cy r j n -> i = j.
Proof.
  intros Hr Hi Hj [= Hx Hy].
  assert (Hn : 0 < INR n) by (apply lt_0_INR; lia).
  pose proof PI_RGT_0 as Hpi.
  assert (Hrange : forall k, (k < n)%nat ->
                             0 <= 2 * PI * INR k / INR n < 2 * PI).
  { intros k Hk. apply lt_INR in Hk. pose proof (pos_INR k) as Hk0.
    split.
    - apply Rmult_le_pos; [nra | left; by apply Rinv_0_lt_compat].
    - apply Rmult_lt_reg_r with (INR n); [done|].
      unfold Rdiv. rewrite Rmult_assoc, Rinv_l by lra. nra. }
  assert (E : 2 * PI * INR i / INR n = 2 * PI * INR j / INR n).
  { apply cos_sin_inj; [by apply Hrange | by apply Hrange | |].
    - apply Rmult_eq_reg_l with r; [lra | done].
    - apply Rmult_eq_reg_l with r; [lra | done]. }
  apply INR_eq.
  apply Rmult_eq_reg_r with (/ INR n); [|apply Rinv_neq_0_compat; lra].
  apply Rmult_eq_reg_l with (2 * PI); [|lra].
  unfold Rdiv in E. lra.
Qed.

(** X4: when the node names are unique and the radius is not 0, no two nodes
    are given the same position; when the radius is 0 every node is placed
    at the centre. *)
Theorem layout_separates_unique_nodes (cx cy r : R) (nodes : list string) :
  NoDup nodes ->
  (r <> 0 ->
   forall (a b : string) (p : Pos.t),
     layout cx cy r nodes !! a = Some p ->
     layout cx cy r nodes !! b = Some p -> a = b)
  /\ (r = 0 ->
      forall (a : string) (p : Pos.t),
        layout cx cy r nodes !! a = Some p -> p = point_of (cx, cy)).
Proof.
  intros Hnd. split.
  - intros Hr a b p Ha Hb. rewrite layout_lookup in Ha, Hb.
    apply fmap_Some in Ha as (qa & Ha & ->).
    apply fmap_Some in Hb as (qb & Hb & Hab).
    unfold node_point in Ha, Hb.
    apply fmap_Some in Ha as (i & Hi & ->).
    apply fmap_Some in Hb as (j & Hj & ->).
    apply last_index_from_Some in Hi as [_ Hi].
    apply last_index_from_Some in Hj as [_ Hj].
    rewrite Nat.sub_0_r in Hi, Hj.
    assert (Hij : i = j).
    { apply (circle_point_inj cx cy r i j (length nodes) Hr).
      - by apply lookup_lt_Some in Hi.
      - by apply lookup_lt_Some in Hj.
      - unfold point_of, circle_point in *. cbn [fst snd] in Hab.
        injection Hab as Hx Hy. by rewrite Hx, Hy. }
    subst j. congruence.
  - intros -> a p Ha. rewrite layout_lookup in Ha.
    apply fmap_Some in Ha as (q & Hq & ->).
    unfold node_point in Hq. apply fmap_Some in Hq as (j & _ & ->).
    unfold circle_point. f_equal. f_equal; lra.
Qed.

(** Two nodes on the default canvas. *)
Lemma layout_separates_unique_nodes_witness :
  NoDup ["P1"; "P2"]
  /\ forall p : Pos.t,
       layout 150 75 25 ["P1"; "P2"] !! "P1" = Some p ->
       layout 150 75 25 ["P1"; "P2"] !! "P2" = Some p -> "P1" = "P2".
Proof.
  assert (Hnd : NoDup ["P1"; "P2"])
    by (apply (bool_decide_unpack _); vm_compute; exact I).
  split; [exact Hnd|].
  intros p.
  apply (proj1 (layout_separates_unique_nodes 150 75 25 ["P1"; "P2"] Hnd)).
  lra.
Defined.

(** ** The arrow between two centres *)

Lemma light_drawArrow_points (x1 y1 x2 y2 : R) (c : Context2D) :
  let a := atan2 (y2 - y1) (x2 - x1) in
  let E := polar (x2, y2) Light.nodeRadius (a + PI) in
  exists c', Light.drawArrow x1 y1 x2 y2 c = (c', Normal)
    /\ painted c'
       = painted c
         ++ light_arrow c (polar (x1, y1) Light.nodeRadius a) E
              (polar E Light.headLength (a + PI - PI / 6))
              (polar E Light.headLength (a + PI + PI / 6)).
Proof.
  cbv zeta. eexists. split; [reflexivity|]. unfold light_arrow.
  rewrite polar_reversed_minus, polar_reversed_plus, polar_reversed.
  unfold polar. cbn [fst snd]. simpl. rewrite INR_6.
  by rewrite <- app_assoc.
Qed.

Lemma dark_drawArrow_points (x1 y1 x2 y2 : R) (color : option string)
  (c : Context2D) :
  let a := atan2 (y2 - y1) (x2 - x1) in
  let E := polar (x2, y2) Dark.nodeRadius (a + PI) in
  exists c', Dark.drawArrow x1 y1 x2 y2 color c = (c', Normal)
    /\ painted c'
       = painted c
         ++ dark_arrow color c (polar (x1, y1) Dark.nodeRadius a) E
              (polar E Dark.headLength (a + PI - PI / 6))
              (polar E Dark.headLength (a + PI + PI / 6)).
Proof.
  cbv zeta. eexists. split; [reflexivity|]. unfold dark_arrow.
  rewrite polar_reversed_minus, polar_reversed_plus, polar_reversed.
  unfold polar. cbn [fst snd]. simpl. rewrite INR_6.
  unfold shadow. simpl. by rewrite <- app_assoc.
Qed.

Lemma atan2_origin : atan2 0 0 = 0.
Proof.
  unfold atan2. destruct (Rlt_dec 0 0) as [H|_]; [lra|]. done.
Qed.

(** X5: an edge from a node to itself is not drawn as a loop: with both
    centres at (x, y) the angle is atan2(0, 0) = 0, and the segment runs
    straight across the node from (x + nodeRadius, y) to
    (x - nodeRadius, y), where the head is put. *)
Theorem self_edge_crosses_the_node (x y : R) (color : option string)
  (c : Context2D) :
  (exists c' L T,
      Light.drawArrow x y x y c = (c', Normal)
      /\ painted c' = painted c ++ light_arrow c (x + 25, y) (x - 25, y) L T)
  /\ (exists c' L T,
        Dark.drawArrow x y x y color c = (c', Normal)
        /\ painted c'
           = painted c ++ dark_arrow color c (x + 30, y) (x - 30, y) L T).
Proof.
  split.
  - destruct (light_drawArrow_points x y x y c) as (c' & E & P).
    exists c'. do 2 eexists. split; [exact E|]. rewrite P.
    replace (y - y) with 0 by ring. replace (x - x) with 0 by ring.
    rewrite atan2_origin, polar_reversed. unfold polar. cbn [fst snd].
    rewrite cos_0, sin_0. unfold Light.nodeRadius.
    replace (x + 25 * 1) with (x + 25) by ring.
    replace (y + 25 * 0) with y by ring.
    replace (x - 25 * 1) with (x - 25) by ring.
    replace (y - 25 * 0) with y by ring.
    reflexivity.
  - destruct (dark_drawArrow_points x y x y color c) as (c' & E & P).
    exists c'. do 2 eexists. split; [exact E|]. rewrite P.
    replace (y - y) with 0 by ring. replace (x - x) with 0 by ring.
    rewrite atan2_origin, polar_reversed. unfold polar. cbn [fst snd].
    rewrite cos_0, sin_0. unfold Dark.nodeRadius.
    replace (x + 30 * 1) with (x + 30) by ring.
    replace (y + 30 * 0) with y by ring.
    replace (x - 30 * 1) with (x - 30) by ring.
    replace (y - 30 * 0) with y by ring.
    reflexivity.
Qed.

Lemma sqrt_scaled (x y s : R) :
  x <> 0 -> 0 < s -> s * s = 1 + (y / x)² ->
  sqrt (x * x + y * y) = Rabs x * s.
Proof.
  intros Hx Hs Hss. apply sqrt_lem_1.
  - nra.
  - apply Rmult_le_pos; [apply Rabs_pos | lra].
  - replace (Rabs x * s * (Rabs x * s)) with (Rabs x * Rabs x * (s * s))
      by ring.
    rewrite Hss. unfold Rsqr.
    replace (Rabs x * Rabs x) with (x * x)
      by (unfold Rabs; destruct (Rcase_abs x); ring).
    field. exact Hx.
Qed.

(** The direction of [atan2 y x] is that of the vector (x, y). *)
Lemma atan2_direction (x y : R) :
  x <> 0 \/ y <> 0 ->
  sqrt (x * x + y * y) * cos (atan2 y x) = x
  /\ sqrt (x * x + y * y) * sin (atan2 y x) = y.
Proof.
  intros Hxy.
  set (t := y / x).
  set (s := sqrt (1 + t²)).
  assert (Hpos : 0 < 1 + t²) by (unfold Rsqr; nra).
  assert (Hs : 0 < s) by (by apply sqrt_lt_R0).
  assert (Hss : s * s = 1 + t²) by (apply sqrt_sqrt; lra).
  assert (Hc : cos (atan t) = 1 / s) by apply cos_atan.
  assert (Hsn : sin (atan t) = t / s) by apply sin_atan.
  unfold atan2.
  destruct (Rlt_dec 0 x) as [Hx|Hx].
  - fold t. rewrite Hc, Hsn, (sqrt_scaled x y s) by (done || lra).
    rewrite Rabs_right by lra. unfold t. split; field; lra.
  - destruct (Rlt_dec x 0) as [Hx'|Hx'].
    + assert (Hd : sqrt (x * x + y * y) = - x * s).
      { rewrite (sqrt_scaled x y s) by (done || lra).
        by rewrite Rabs_left. }
      fold t. destruct (Rle_dec 0 y) as [_|_].
      * rewrite neg_cos, neg_sin, Hc, Hsn, Hd. unfold t. split; field; lra.
      * rewrite cos_minus, sin_minus, cos_PI, sin_PI, Hc, Hsn, Hd.
        unfold t. split; field; lra.
    + assert (x = 0) as -> by lra.
      replace (0 * 0 + y * y) with (y * y) by ring.
      destruct (Rlt_dec 0 y) as [Hy|Hy].
      * rewrite cos_PI2, sin_PI2, sqrt_square by lra. lra.
      * destruct (Rlt_dec y 0) as [Hy'|Hy']; [|lra].
        rewrite cos_neg, sin_neg, cos_PI2, sin_PI2.
        replace (y * y) with (- y * - y) by ring.
        rewrite sqrt_square by lra. lra.
Qed.

(** X6: between two distinct centres at distance d, the segment of the arrow
    lies on the straight line through them: it starts at the point at
    nodeRadius from the source towards the destination, and ends at the
    point at nodeRadius from the destination towards the source.  (When d is
    less than twice nodeRadius the two points are in reverse order, and the
    arrow is drawn pointing backwards.) *)
Theorem arrow_lies_on_the_line_of_centres (x1 y1 x2 y2 : R)
  (color : option string) (c : Context2D) :
  x2 - x1 <> 0 \/ y2 - y1 <> 0 ->
  let d := sqrt ((x2 - x1) * (x2 - x1) + (y2 - y1) * (y2 - y1)) in
  0 < d
  /\ (exists c' S E L T,
        Light.drawArrow x1 y1 x2 y2 c = (c', Normal)
        /\ painted c' = painted c ++ light_arrow c S E L T
        /\ d * (fst S - x1) = Light.nodeRadius * (x2 - x1)
        /\ d * (snd S - y1) = Light.nodeRadius * (y2 - y1)
        /\ d * (x2 - fst E) = Light.nodeRadius * (x2 - x1)
        /\ d * (y2 - snd E) = Light.nodeRadius * (y2 - y1)
        /\ d * (fst E - fst S) = (d - 2 * Light.nodeRadius) * (x2 - x1)
        /\ d * (snd E - snd S) = (d - 2 * Light.nodeRadius) * (y2 - y1))
  /\ (exists c' S E L T,
        Dark.drawArrow x1 y1 x2 y2 color c = (c', Normal)
        /\ painted c' = painted c ++ dark_arrow color c S E L T
        /\ d * (fst S - x1) = Dark.nodeRadius * (x2 - x1)
        /\ d * (snd S - y1) = Dark.nodeRadius * (y2 - y1)
        /\ d * (x2 - fst E) = Dark.nodeRadius * (x2 - x1)
        /\ d * (y2 - snd E) = Dark.nodeRadius * (y2 - y1)
        /\ d * (fst E - fst S) = (d - 2 * Dark.nodeRadius) * (x2 - x1)
        /\ d * (snd E - snd S) = (d - 2 * Dark.nodeRadius) * (y2 - y1)).
Proof.
  intros Hne. cbv zeta.
  destruct (atan2_direction (x2 - x1) (y2 - y1) Hne) as [Hc Hs].
  set (d := sqrt ((x2 - x1) * (x2 - x1) + (y2 - y1) * (y2 - y1))) in *.
  set (a := atan2 (y2 - y1) (x2 - x1)) in *.
  split.
  { apply sqrt_lt_R0. destruct Hne; nra. }
  split.
  - destruct (light_drawArrow_points x1 y1 x2 y2 c) as (c' & E & P).
    exists c'. do 4 eexists. split; [exact E|]. split; [exact P|].
    fold a. rewrite polar_reversed. unfold polar. cbn [fst snd].
    repeat split; nra.
  - destruct (dark_drawArrow_points x1 y1 x2 y2 color c) as (c' & E & P).
    exists c'. do 4 eexists. split; [exact E|]. split; [exact P|].
    fold a. rewrite polar_reversed. unfold polar. cbn [fst snd].
    repeat split; nra.
Qed.

(** From (0, 0) to (3, 4), at distance 5. *)
Lemma arrow_lies_on_the_line_of_centres_witness :
  (3 - 0 <> 0 \/ 4 - 0 <> 0)
  /\ 0 < sqrt ((3 - 0) * (3 - 0) + (4 - 0) * (4 - 0)).
Proof.
  assert (H : 3 - 0 <> 0 \/ 4 - 0 <> 0) by (left; lra).
  split; [exact H|].
  exact (proj1 (arrow_lies_on_the_line_of_centres 0 0 3 4 None
                  default_context H)).
Defined.

Lemma head_corners_apart (E : R * R) (h u : R) :
  dist2 (polar E h (u - PI / 6)) (polar E h (u + PI / 6)) = h * h.
Proof.
  unfold dist2, polar. cbn [fst snd].
  rewrite cos_plus, cos_minus, sin_plus, sin_minus, sin_PI6.
  pose proof (sin2_cos2 u) as H. unfold Rsqr in H.
  lazymatch goal with
  | |- ?lhs = _ =>
      replace lhs with (h * h * (sin u * sin u + cos u * cos u)) by field
  end.
  rewrite H. ring.
Qed.

(** X7: the head of an arrow is an equilateral triangle: its two corners
    behind the tip are at headLength from the tip and at headLength from each
    other (15 in the original renderer, 12 in the dark-mode one). *)
Theorem arrow_head_is_equilateral (x1 y1 x2 y2 : R) (color : option string)
  (c : Context2D) :
  (exists c' S E L T,
      Light.drawArrow x1 y1 x2 y2 c = (c', Normal)
      /\ painted c' = painted c ++ light_arrow c S E L T
      /\ dist2 E L = 15 * 15 /\ dist2 E T = 15 * 15 /\ dist2 L T = 15 * 15)
  /\ (exists c' S E L T,
        Dark.drawArrow x1 y1 x2 y2 color c = (c', Normal)
        /\ painted c' = painted c ++ dark_arrow color c S E L T
        /\ dist2 E L = 12 * 12 /\ dist2 E T = 12 * 12
        /\ dist2 L T = 12 * 12).
Proof.
  split.
  - destruct (light_drawArrow_points x1 y1 x2 y2 c) as (c' & E & P).
    exists c'. do 4 eexists. split; [exact E|]. split; [exact P|].
    rewrite !polar_dist2, head_corners_apart. done.
  - destruct (dark_drawArrow_points x1 y1 x2 y2 color c) as (c' & E & P).
    exists c'. do 4 eexists. split; [exact E|]. split; [exact P|].
    rewrite !polar_dist2, head_corners_apart. done.
Qed.

(** ** Exceptions *)

Lemma dark_completion (document : Document) (dpr : number) (id : string)
  (history : list Call) (call : Call) :
  snd (DarkRun.call (DarkRun.run history (Dark.constructor document dpr id))
         call) = Normal.
Proof.
  destruct (document id) as [el|] eqn:Hel.
  - destruct (DarkFacts.dark_reachable document dpr id el history Hel)
      as (rect & c & -> & _ & _ & S).
    by destruct (DarkFacts.dark_call_spec rect c call S) as (c' & -> & _).
  - rewrite (DarkFacts.dark_reachable_inert document dpr id history Hel).
    unfold inert. by rewrite DarkFacts.dark_call_inert.
Qed.

(** X8: no call on a visualizer of the dark-mode class throws when its
    argument is null or undefined or has the shape of the payload: for
    [drawWaitForGraph] a snapshot whose [nodes], [edges] and
    [deadlockedNodes] are absent or arrays of names and of [{from, to}]
    objects, for [drawFSADiagram] an array of names or an object.  This
    holds whatever the page, the pixel ratio and the earlier calls are: a
    missing canvas, a null argument, absent fields, edges between unknown
    names and repeated names all lead to a normal return.  A visualizer
    whose canvas was not found is left without canvas and context by every
    such call. *)
Theorem dark_calls_never_throw (document : Document) (dpr : number)
  (id : string) (history : list Call) (call : Call) :
  let this := DarkRun.run history (Dark.constructor document dpr id) in
  snd (DarkRun.call this call) = Normal
  /\ (document id = None -> fst (DarkRun.call this call) = inert).
Proof.
  cbv zeta. split.
  - destruct (document id) as [el|] eqn:Hel.
    + destruct (DarkFacts.dark_reachable document dpr id el history Hel)
        as (rect & c & -> & _ & _ & S).
      by destruct (DarkFacts.dark_call_spec rect c call S) as (c' & -> & _).
    + rewrite (DarkFacts.dark_reachable_inert document dpr id history Hel).
      unfold inert. by rewrite DarkFacts.dark_call_inert.
  - intros Hel.
    rewrite (DarkFacts.dark_reachable_inert document dpr id history Hel).
    unfold inert. by rewrite DarkFacts.dark_call_inert.
Qed.

(** On a page without canvases. *)
Lemma dark_calls_never_throw_witness :
  empty_page "wfgCanvas" = None
  /\ fst (DarkRun.call (Dark.constructor empty_page 2 "wfgCanvas")
            (CallWFG None)) = inert.
Proof.
  split; [reflexivity|].
  exact (proj2 (dark_calls_never_throw empty_page 2 "wfgCanvas" []
                  (CallWFG None)) eq_refl).
Defined.

(** X9: on a visualizer of the original class that has a canvas, a render
    with a snapshot or with states returns normally, while
    [drawWaitForGraph(null)] and [drawFSADiagram(null, _)] throw a TypeError,
    and do so after the surface has been cleared and filled with the
    background: the earlier picture is painted over although nothing is
    drawn. *)
Theorem light_null_input_throws_after_clearing (document : Document)
  (id : string) (el : Element) (history : list Call)
  (currentState : option string) :
  document id = Some el ->
  let this := LightRun.run history (Light.constructor document id) in
  let background :=
    LightSpec.backgroundPaints (shadow (element_context el))
      (element_canvas el) in
  (exists this', Light.drawWaitForGraph this None = (this', Throw TypeError)
                 /\ surface this' = surface this ++ background)
  /\ (exists this', Light.drawFSADiagram this None currentState
                    = (this', Throw TypeError)
                    /\ surface this' = surface this ++ background)
  /\ (forall d, snd (Light.drawWaitForGraph this (Some d)) = Normal)
  /\ (forall s, snd (Light.drawFSADiagram this (Some s) currentState)
                = Normal).
Proof.
  intros Hel. cbv zeta.
  destruct (LightFacts.light_reachable document id el history Hel)
    as (c & -> & S).
  assert (H : forall call, exists c',
             LightRun.call {| canvas := Some (element_canvas el);
                              context := Some c |} call
             = ({| canvas := Some (element_canvas el); context := Some c' |},
                LightSpec.completion call)
             /\ painted c'
                = painted c
                  ++ LightSpec.output (shadow (element_context el))
                       (element_canvas el) call).
  { intros call.
    destruct (LightFacts.light_call_spec (element_canvas el) c call)
      as (c' & E & _ & P).
    exists c'. by rewrite <- S. }
  split; [|split; [|split]].
  - destruct (H (CallWFG None)) as (c' & E & P).
    eexists. split; [exact E|]. unfold surface. cbn [context].
    rewrite P. unfold LightSpec.output. by rewrite app_nil_r.
  - destruct (H (CallFSA None currentState)) as (c' & E & P).
    eexists. split; [exact E|]. unfold surface. cbn [context].
    rewrite P. unfold LightSpec.output. by rewrite app_nil_r.
  - intros d. destruct (H (CallWFG (Some d))) as (c' & E & _).
    cbn [LightRun.call] in E. by rewrite E.
  - intros s. destruct (H (CallFSA (Some s) currentState)) as (c' & E & _).
    cbn [LightRun.call] in E. by rewrite E.
Qed.

(** On the page of the client, with nothing drawn before. *)
Lemma light_null_input_throws_after_clearing_witness :
  page 300 150 "wfgCanvas" = Some (new_canvas 300 150)
  /\ exists this',
       Light.drawWaitForGraph (Light.constructor (page 300 150) "wfgCanvas")
         None = (this', Throw TypeError)
       /\ surface this'
          = [ ClearRect 0 0 300 150;
              FillRect 0 0 300 150 Light.background None ].
Proof.
  split; [reflexivity|].
  exact (proj1 (light_null_input_throws_after_clearing (page 300 150)
                  "wfgCanvas" (new_canvas 300 150) [] None eq_refl)).
Defined.

(** ** States of the FSA diagram *)

(** X10: [drawFSADiagram] draws the state of index [i] of [n] at
    (w/2 + r cos(2 pi i / n), h/2 + r sin(2 pi i / n)) with
    r = min(w/2, h/2) - margin, in the order of the states and whether or not
    names are repeated: unlike the nodes of the wait-for graph, two states of
    the same name are drawn at their own two places. *)
Theorem fsa_states_are_placed_by_index (document : Document) (dpr : number)
  (id : string) (el : Element) (history : list Call) (s : States)
  (currentState : option string) :
  document id = Some el ->
  let ids := stateList s in
  let n := length ids in
  let cv := element_canvas el in
  let sh := shadow (element_context el) in
  let rL := Rmin (width cv / 2) (height cv / 2) - 50 in
  let rD := Rmin (rect_width cv / 2) (rect_height cv / 2) - 60 in
  renders LightRun.call
    (LightRun.run history (Light.constructor document id))
    (CallFSA (Some s) currentState)
    (LightSpec.backgroundPaints sh cv
     ++ paints_from
          (fun st i =>
             LightSpec.nodePaints sh st
               (if bool_decide (Some st = currentState)
                then Light.activeColor else Light.neutralColor)
               (width cv / 2 + rL * cos (2 * PI * INR i / INR n),
                height cv / 2 + rL * sin (2 * PI * INR i / INR n)))
          0 ids)
  /\ renders DarkRun.call
       (DarkRun.run history (Dark.constructor document dpr id))
       (CallFSA (Some s) currentState)
       (DarkSpec.backgroundPaints cv
        ++ paints_from
             (fun st i =>
                DarkSpec.nodePaints st
                  (if bool_decide (Some st = currentState)
                   then Dark.activeColor else Dark.neutralColor)
                  (rect_width cv / 2 + rD * cos (2 * PI * INR i / INR n),
                   rect_height cv / 2 + rD * sin (2 * PI * INR i / INR n)))
             0 ids).
Proof.
  intros Hel. cbv zeta. split.
  - exact (light_renders document id el history
             (CallFSA (Some s) currentState) Hel eq_refl).
  - exact (dark_renders document dpr id el history
             (CallFSA (Some s) currentState) Hel).
Qed.

(** Two states of the same name: each is drawn, at index 0 and at index 1. *)
Lemma fsa_states_are_placed_by_index_witness :
  page 300 150 "fsaCanvas" = Some (new_canvas 300 150)
  /\ renders LightRun.call (Light.constructor (page 300 150) "fsaCanvas")
       (CallFSA (Some (StArray ["READY"; "READY"])) None)
       (LightSpec.backgroundPaints None (element_canvas (new_canvas 300 150))
        ++ LightSpec.nodePaints None "READY" Light.neutralColor
             (300 / 2 + (Rmin (300 / 2) (150 / 2) - 50)
                        * cos (2 * PI * INR 0 / INR 2),
              150 / 2 + (Rmin (300 / 2) (150 / 2) - 50)
                        * sin (2 * PI * INR 0 / INR 2))
        ++ LightSpec.nodePaints None "READY" Light.neutralColor
             (300 / 2 + (Rmin (300 / 2) (150 / 2) - 50)
                        * cos (2 * PI * INR 1 / INR 2),
              150 / 2 + (Rmin (300 / 2) (150 / 2) - 50)
                        * sin (2 * PI * INR 1 / INR 2))
        ++ []).
Proof.
  split; [reflexivity|].
  exact (proj1 (fsa_states_are_placed_by_index (page 300 150) 1 "fsaCanvas"
                  (new_canvas 300 150) [] (StArray ["READY"; "READY"]) None
                  eq_refl)).
Defined.

(** ** The transform over a history *)

(** X11: the render methods never change the transform of the context nor
    the canvas the visualizer holds, whatever they are called with and
    however they complete.  So a dark-mode visualizer keeps for good the
    scaling that its constructor applied once: by [devicePixelRatio], or by 1
    when that is 0 or not a number; an original one keeps the transform its
    canvas came with. *)
Theorem renders_keep_the_transform (document : Document) (dpr : number)
  (id : string) (history : list Call) :
  let light := LightRun.run history (Light.constructor document id) in
  let dark := DarkRun.run history (Dark.constructor document dpr id) in
  transform_of light = transform_of (Light.constructor document id)
  /\ canvas light = canvas (Light.constructor document id)
  /\ transform_of dark
     = (fun _ => (Dark.or_one dpr, Dark.or_one dpr)) <$> document id
  /\ canvas dark = canvas (Dark.constructor document dpr id)
  /\ (forall r, r <> 0 -> Dark.or_one (Fin r) = r)
  /\ Dark.or_one (Fin 0) = 1
  /\ Dark.or_one NaN = 1.
Proof.
  cbv zeta.
  destruct (light_run_keeps history (Light.constructor document id))
    as [-> ->].
  destruct (dark_run_keeps history (Dark.constructor document dpr id))
    as [-> ->].
  split; [done|]. split; [done|]. split.
  { unfold Dark.constructor, transform_of.
    destruct (document id); [|done].
    cbn. f_equal. f_equal; ring. }
  split; [done|]. split; [|split].
  - intros r Hr. unfold Dark.or_one. by destruct (Req_dec_T r 0).
  - unfold Dark.or_one. by destruct (Req_dec_T 0 0).
  - done.
Qed.

(** ** The page script *)

Lemma light_run_snoc (history : list Call) (call : Call) :
  forall this,
    fst (LightRun.call (LightRun.run history this) call)
    = LightRun.run (history ++ [call]) this.
Proof.
  induction history as [|c history IH]; intros this; [done|]. apply IH.
Qed.

Lemma dark_run_snoc (history : list Call) (call : Call) :
  forall this,
    fst (DarkRun.call (DarkRun.run history this) call)
    = DarkRun.run (history ++ [call]) this.
Proof.
  induction history as [|c history IH]; intros this; [done|]. apply IH.
Qed.

Lemma light_completion (document : Document) (id : string)
  (history : list Call) (call : Call) :
  snd (LightRun.call (LightRun.run history (Light.constructor document id))
         call)
  = match document id, call with
    | None, CallWFG _ => Normal
    | None, CallFSA _ _ => Throw TypeError
    | Some _, _ => LightSpec.completion call
    end.
Proof.
  destruct (document id) as [el|] eqn:Hel.
  - destruct (LightFacts.light_reachable document id el history Hel)
      as (c & -> & _).
    by destruct (LightFacts.light_call_spec (element_canvas el) c call)
      as (c' & -> & _).
  - rewrite (LightFacts.light_reachable_inert document id history Hel).
    unfold inert. rewrite LightFacts.light_call_inert. by destruct call.
Qed.

(** A drawing step makes at most one call on each visualizer. *)
Lemma drawVisualizations_calls (K : VisualizerClass)
  (v1 v2 : DeadlockVisualizer) (s : SystemState) :
  exists o1 o2 : option Call,
    fst (drawVisualizations K
           {| wfgVisualizer := Some v1; fsaVisualizer := Some v2 |} s)
    = {| wfgVisualizer :=
           Some (from_option (fun c => fst (method K v1 c)) v1 o1);
         fsaVisualizer :=
           Some (from_option (fun c => fst (method K v2 c)) v2 o2) |}.
Proof.
  unfold drawVisualizations. cbn [wfgVisualizer fsaVisualizer].
  destruct (wait_for_graph s) as [g|].
  - destruct (method K v1 (CallWFG (Some g))) as [v1' [|e]] eqn:E1.
    + cbn [wfgVisualizer fsaVisualizer]. destruct (fsa s) as [f|].
      * destruct (method K v2 (CallFSA (states f) (current f)))
          as [v2' r2] eqn:E2.
        exists (Some (CallWFG (Some g))),
               (Some (CallFSA (states f) (current f))).
        cbn [from_option fst]. by rewrite E1, E2.
      * exists (Some (CallWFG (Some g))), None.
        cbn [from_option fst]. by rewrite E1.
    + exists (Some (CallWFG (Some g))), None.
      cbn [from_option fst]. by rewrite E1.
  - cbn [wfgVisualizer fsaVisualizer]. destruct (fsa s) as [f|].
    + destruct (method K v2 (CallFSA (states f) (current f)))
        as [v2' r2] eqn:E2.
      exists None, (Some (CallFSA (states f) (current f))).
      cbn [from_option fst]. by rewrite E2.
    + by exists None, None.
Qed.

(** The variables of a page that has been initialized hold visualizers built
    on its two canvases, in states that calls have led them to. *)
Lemma light_app_reachable (document : Document)
  (payloads : list SystemState) :
  forall h1 h2,
  exists h1' h2',
    updates LightClass
      {| wfgVisualizer :=
           Some (LightRun.run h1 (Light.constructor document "wfgCanvas"));
         fsaVisualizer :=
           Some (LightRun.run h2 (Light.constructor document "fsaCanvas")) |}
      payloads
    = {| wfgVisualizer :=
           Some (LightRun.run h1' (Light.constructor document "wfgCanvas"));
         fsaVisualizer :=
           Some (LightRun.run h2' (Light.constructor document "fsaCanvas")) |}.
Proof.
  induction payloads as [|s payloads IH]; intros h1 h2; [by exists h1, h2|].
  unfold updates in *. cbn [fold_left].
  destruct (drawVisualizations_calls LightClass
              (LightRun.run h1 (Light.constructor document "wfgCanvas"))
              (LightRun.run h2 (Light.constructor document "fsaCanvas")) s)
    as (o1 & o2 & ->).
  destruct o1 as [c1|], o2 as [c2|]; cbn [from_option method LightClass];
    rewrite ?light_run_snoc; apply IH.
Qed.

Lemma dark_app_reachable (document : Document) (dpr : number)
  (payloads : list SystemState) :
  forall h1 h2,
  exists h1' h2',
    updates (DarkClass dpr)
      {| wfgVisualizer :=
           Some (DarkRun.run h1 (Dark.constructor document dpr "wfgCanvas"));
         fsaVisualizer :=
           Some (DarkRun.run h2 (Dark.constructor document dpr "fsaCanvas")) |}
      payloads
    = {| wfgVisualizer :=
           Some (DarkRun.run h1' (Dark.constructor document dpr "wfgCanvas"));
         fsaVisualizer :=
           Some (DarkRun.run h2'
                   (Dark.constructor document dpr "fsaCanvas")) |}.
Proof.
  induction payloads as [|s payloads IH]; intros h1 h2; [by exists h1, h2|].
  unfold updates in *. cbn [fold_left].
  destruct (drawVisualizations_calls (DarkClass dpr)
              (DarkRun.run h1 (Dark.constructor document dpr "wfgCanvas"))
              (DarkRun.run h2 (Dark.constructor document dpr "fsaCanvas")) s)
    as (o1 & o2 & ->).
  destruct o1 as [c1|], o2 as [c2|]; cbn [from_option method DarkClass];
    rewrite ?dark_run_snoc; apply IH.
Qed.

Lemma updates_not_initialized (K : VisualizerClass)
  (payloads : list SystemState) :
  updates K not_initialized payloads = not_initialized.
Proof.
  induction payloads as [|s payloads IH]; [done|].
  unfold updates in *. cbn [fold_left].
  replace (fst (drawVisualizations K not_initialized s)) with not_initialized;
    [exact IH|].
  unfold drawVisualizations. by destruct (wait_for_graph s), (fsa s).
Qed.

(** What [initializeApp] leaves in the two variables: the visualizers when
    the server answered and the six buttons were found, null otherwise. *)
Lemma initializeApp_variables (K : VisualizerClass) (document : Document)
  (elements : Elements) (serverReady : bool) :
  fst (initializeApp K document elements serverReady not_initialized)
  = if serverReady && forallb elements buttons
    then {| wfgVisualizer := Some (construct K document "wfgCanvas");
            fsaVisualizer := Some (construct K document "fsaCanvas") |}
    else not_initialized.
Proof.
  unfold initializeApp, initializeEventListeners.
  by destruct serverReady, (forallb elements buttons).
Qed.

(** X12: with the dark-mode class loaded, the drawing step of
    [updateSystemState] never reaches its [catch] on a well-formed payload
    ([wait_for_graph] absent or a snapshot whose fields are absent or arrays
    of names and of [{from, to}] objects; [fsa.states] absent, an array of
    names or an object): whatever the page
    (canvases or buttons missing), the outcome of [initializeApp], the
    earlier state updates and the fields absent from the payload, no error
    is logged by the step. *)
Theorem dark_page_never_logs_a_drawing_error (document : Document)
  (elements : Elements) (dpr : number) (serverReady : bool)
  (payloads : list SystemState) (state : SystemState) :
  let start :=
    initializeApp (DarkClass dpr) document elements serverReady
      not_initialized in
  snd (drawVisualizations (DarkClass dpr)
         (updates (DarkClass dpr) (fst start) payloads) state) = None.
Proof.
  cbv zeta. rewrite initializeApp_variables.
  destruct (serverReady && forallb elements buttons).
  - destruct (dark_app_reachable document dpr payloads [] [])
      as (h1 & h2 & E).
    cbn [DarkRun.run construct DarkClass] in *. rewrite E.
    unfold drawVisualizations.
    cbn [wfgVisualizer fsaVisualizer method DarkClass].
    destruct (wait_for_graph state) as [g|].
    + pose proof (dark_completion document dpr "wfgCanvas" h1
                    (CallWFG (Some g))) as H1.
      destruct (DarkRun.call _ (CallWFG (Some g))) as [v1 r1].
      cbn [snd] in H1. subst r1. cbn [wfgVisualizer fsaVisualizer].
      destruct (fsa state) as [f|]; [|done].
      pose proof (dark_completion document dpr "fsaCanvas" h2
                    (CallFSA (states f) (current f))) as H2.
      destruct (DarkRun.call _ (CallFSA _ _)) as [v2 r2].
      cbn [snd] in *. by subst r2.
    + cbn [wfgVisualizer fsaVisualizer].
      destruct (fsa state) as [f|]; [|done].
      pose proof (dark_completion document dpr "fsaCanvas" h2
                    (CallFSA (states f) (current f))) as H2.
      destruct (DarkRun.call _ (CallFSA _ _)) as [v2 r2].
      cbn [snd] in *. by subst r2.
  - rewrite updates_not_initialized.
    unfold drawVisualizations. by destruct (wait_for_graph state), (fsa state).
Qed.

(** X13: with the original class loaded and the server reachable, on
    well-formed payloads ([wait_for_graph] absent or a snapshot whose fields
    are absent or arrays of names and of [{from, to}] objects; [fsa.states]
    absent, an array of names or an object).  [initializeApp] rejects exactly
    when a button or the request log is missing.  When one of the six
    buttons is missing, [initializeEventListeners] throws before the
    visualizers are created: the two variables stay null for good and the
    drawing step draws and logs nothing.  Otherwise the step logs an error exactly when the payload has
    an [fsa] field and either the canvas fsaCanvas is missing or
    [fsa.states] is absent; the error is a TypeError.  On these payloads the
    wait-for graph is never the cause, since the step calls
    [drawWaitForGraph] only with a snapshot, and it is drawn first: the
    wait-for graph visualizer is left as [drawWaitForGraph] leaves it also
    when the error is logged. *)
Theorem light_page_logs_fsa_errors_only (document : Document)
  (elements : Elements) (payloads : list SystemState) (state : SystemState) :
  let start :=
    initializeApp LightClass document elements true not_initialized in
  let app := updates LightClass (fst start) payloads in
  let result := drawVisualizations LightClass app state in
  (snd start = Throw TypeError <->
   forallb elements buttons = false \/ elements "requestLog" = false)
  /\ (app = not_initialized <-> forallb elements buttons = false)
  /\ (snd result = Some TypeError <->
      forallb elements buttons = true
      /\ exists f, fsa state = Some f
                   /\ (document "fsaCanvas" = None \/ states f = None))
  /\ (snd result = None \/ snd result = Some TypeError)
  /\ (forall v g,
        wfgVisualizer app = Some v -> wait_for_graph state = Some g ->
        wfgVisualizer (fst result)
        = Some (fst (Light.drawWaitForGraph v (Some g)))).
Proof.
  cbv zeta. split.
  { unfold initializeApp, initializeEventListeners, logMessage.
    destruct (forallb elements buttons), (elements "requestLog"); cbn;
      split; intros H; try done; auto; by destruct H. }
  rewrite initializeApp_variables. cbn [andb].
  destruct (forallb elements buttons); cycle 1.
  { rewrite updates_not_initialized. unfold drawVisualizations.
    destruct (wait_for_graph state), (fsa state); cbn;
      (split; [done|]); (split; [split; [done | by intros [? _]]|]);
      (split; [by left | done]). }
  destruct (light_app_reachable document payloads [] []) as (h1 & h2 & E).
  cbn [LightRun.run construct LightClass] in *. rewrite E. clear E.
  split; [done|].
  assert (Hfsa : forall f,
            snd (LightRun.call
                   (LightRun.run h2 (Light.constructor document "fsaCanvas"))
                   (CallFSA (states f) (current f))) = Throw TypeError
            <-> (document "fsaCanvas" = None \/ states f = None)).
  { intros f. rewrite light_completion.
    destruct (document "fsaCanvas"), (states f); cbn;
      (split; [intros ?; ((by left) || (by right) || done)
              | intros [?|?]; done]). }
  assert (Hfsa' : forall f,
            snd (LightRun.call
                   (LightRun.run h2 (Light.constructor document "fsaCanvas"))
                   (CallFSA (states f) (current f))) = Normal
            \/ snd (LightRun.call
                   (LightRun.run h2 (Light.constructor document "fsaCanvas"))
                   (CallFSA (states f) (current f))) = Throw TypeError).
  { intros f. rewrite light_completion.
    destruct (document "fsaCanvas"), (states f); cbn; auto. }
  unfold drawVisualizations.
  cbn [wfgVisualizer fsaVisualizer method LightClass].
  destruct (wait_for_graph state) as [g|].
  - pose proof (light_completion document "wfgCanvas" h1 (CallWFG (Some g)))
      as H1.
    assert (H1' : snd (LightRun.call
                         (LightRun.run h1
                            (Light.constructor document "wfgCanvas"))
                         (CallWFG (Some g))) = Normal)
      by (rewrite H1; by destruct (document "wfgCanvas")).
    clear H1. cbn [LightRun.call] in *.
    destruct (Light.drawWaitForGraph _ (Some g)) as [v1 r1] eqn:E1.
    cbn [snd] in H1'. subst r1. cbn [wfgVisualizer fsaVisualizer].
    destruct (fsa state) as [f|].
    + specialize (Hfsa f). specialize (Hfsa' f).
      destruct (Light.drawFSADiagram _ (states f) (current f)) as [v2 r2].
      cbn [fst snd wfgVisualizer] in *.
      split; [|split].
      * split.
        -- intros Hr. split; [done|]. exists f. split; [done|]. apply Hfsa.
           destruct r2 as [|e]; [done|]. by injection Hr as ->.
        -- intros (_ & f' & [= <-] & Hf). apply Hfsa in Hf. by rewrite Hf.
      * destruct Hfsa' as [-> | ->]; auto.
      * intros v g' [= <-] [= <-]. by rewrite E1.
    + cbn [fst snd wfgVisualizer]. split; [|split].
      * split; [done | by intros (_ & f & ? & _)].
      * by left.
      * intros v g' [= <-] [= <-]. by rewrite E1.
  - cbn [wfgVisualizer fsaVisualizer].
    destruct (fsa state) as [f|].
    + specialize (Hfsa f). specialize (Hfsa' f). cbn [LightRun.call] in *.
      destruct (Light.drawFSADiagram _ (states f) (current f)) as [v2 r2].
      cbn [fst snd wfgVisualizer] in *.
      split; [|split].
      * split.
        -- intros Hr. split; [done|]. exists f. split; [done|]. apply Hfsa.
           destruct r2 as [|e]; [done|]. by injection Hr as ->.
        -- intros (_ & f' & [= <-] & Hf). apply Hfsa in Hf. by rewrite Hf.
      * destruct Hfsa' as [-> | ->]; auto.
      * by intros v g' _ ?.
    + cbn [fst snd wfgVisualizer]. split; [|split].
      * split; [done | by intros (_ & f & ? & _)].
      * by left.
      * by intros v g' _ ?.
Qed.

(** ** The size a render goes by *)

Lemma light_output_size (sh : Shadow) (cv cv' : Canvas) (call : Call) :
  width cv = width cv' -> height cv = height cv' ->
  LightSpec.output sh cv call = LightSpec.output sh cv' call.
Proof.
  intros Hw Hh.
  unfold LightSpec.output, LightSpec.backgroundPaints, LightSpec.wfgPaints,
    LightSpec.fsaPaints, LightSpec.centerX, LightSpec.centerY,
    LightSpec.radius.
  by rewrite Hw, Hh.
Qed.

(** X14: the dark-mode renderer lays out and paints by the bounding
    rectangle of the canvas alone: two canvases with the same rectangle get
    the same paints from the same call, whatever their [width] and [height]
    attributes and the pixel ratios are.  The original renderer goes by the
    [width] and [height] attributes alone, whatever the rectangles are. *)
Theorem renderers_differ_in_the_size_they_use (doc1 doc2 : Document)
  (dpr1 dpr2 : number) (id : string) (el1 el2 : Element)
  (h1 h2 : list Call) (call : Call) :
  doc1 id = Some el1 ->
  doc2 id = Some el2 ->
  (rect_width (element_canvas el1) = rect_width (element_canvas el2) ->
   rect_height (element_canvas el1) = rect_height (element_canvas el2) ->
   exists out,
     renders DarkRun.call (DarkRun.run h1 (Dark.constructor doc1 dpr1 id))
       call out
     /\ renders DarkRun.call (DarkRun.run h2 (Dark.constructor doc2 dpr2 id))
          call out)
  /\ (width (element_canvas el1) = width (element_canvas el2) ->
      height (element_canvas el1) = height (element_canvas el2) ->
      shadow (element_context el1) = shadow (element_context el2) ->
      LightSpec.completion call = Normal ->
      exists out,
        renders LightRun.call (LightRun.run h1 (Light.constructor doc1 id))
          call out
        /\ renders LightRun.call (LightRun.run h2 (Light.constructor doc2 id))
             call out).
Proof.
  intros H1 H2. split.
  - intros Hw Hh. exists (DarkSpec.output (element_canvas el1) call).
    split; [by apply dark_renders|].
    rewrite (DarkFacts.dark_output_rect _ (element_canvas el2) call Hw Hh).
    by apply dark_renders.
  - intros Hw Hh Hs Hc.
    exists (LightSpec.output (shadow (element_context el1))
              (element_canvas el1) call).
    split; [by apply light_renders|].
    rewrite (light_output_size _ _ (element_canvas el2) call Hw Hh), Hs.
    by apply light_renders.
Qed.

(** A canvas of 300 by 150 shown in a rectangle of 600 by 300, and one of
    600 by 300 shown in the same rectangle. *)
Lemma renderers_differ_in_the_size_they_use_witness :
  let el1 := {| element_canvas := {| width := 300; height := 150;
                                     rect_width := 600; rect_height := 300 |};
                element_context := default_context |} in
  let el2 := {| element_canvas := {| width := 600; height := 300;
                                     rect_width := 600; rect_height := 300 |};
                element_context := default_context |} in
  exists out,
    renders DarkRun.call (Dark.constructor (fun _ => Some el1) 1 "wfgCanvas")
      (CallFSA (Some (StArray ["NEW"])) None) out
    /\ renders DarkRun.call (Dark.constructor (fun _ => Some el2) 2 "wfgCanvas")
         (CallFSA (Some (StArray ["NEW"])) None) out.
Proof.
  cbv zeta.
  exact (proj1 (renderers_differ_in_the_size_they_use
                  (fun _ => Some _) (fun _ => Some _) 1 2 "wfgCanvas" _ _ [] []
                  (CallFSA (Some (StArray ["NEW"])) None) eq_refl eq_refl)
               eq_refl eq_refl).
Defined.
